(** * Alarm-System: the stale-alarm sweeper, the alarm form and the asset cache

    A shallow embedding of
    - [migrations/002_add_cleanup_procedure.sql]: the stored procedure
      [sp_cleanup_old_alarms] and the event [ev_cleanup_old_alarms];
    - the two revisions of the React component [AlarmForm] (the submit
      handler [onSubmit] and the [register] rules of the symbol field);
    - [getCachedAssets] and its module-level [assetCache];
    - the RSI indicator, as the specification words it. *)

From Stdlib Require Import ZArith List Bool Lia QArith Lqa Permutation String Ascii.
From stdpp Require Import gmap strings.
Import ListNotations.

Close Scope Q_scope.
Local Open Scope Z_scope.

(* ===================================================================== *)
(** ** The sweeper: [sp_cleanup_old_alarms]                              *)
(* ===================================================================== *)

Module Sweeper.

(** Modelled from the spec: the [status] column of table [alarms]. The
    CREATE TABLE statement is not among the migrations at hand; the data
    model lists the enum's values. *)
Inductive Status : Set := pending | triggered | failed | deleted.

Definition Status_eqb (a b : Status) : bool :=
  match a, b with
  | pending, pending | triggered, triggered
  | failed, failed | deleted, deleted => true
  | _, _ => false
  end.

(** Modelled from the spec: a row of table [alarms]. The procedure reads
    [id], [status] and [created_at]; the two text columns stand for the
    payload a row carries. Points in time are seconds on the server's
    clock. *)
Record Row : Set := mkRow {
  id : Z;
  asset_symbol : string;
  email : string;
  status : Status;
  created_at : Z
}.

Definition Table : Set := list Row.

Definition SECONDS_PER_DAY : Z := 86400.

(** [DATE_SUB(t, INTERVAL n DAY)]. *)
Definition DATE_SUB (t n : Z) : Z := t - n * SECONDS_PER_DAY.

(** [x IN (v1, ..., vk)] on the status column. *)
Definition status_IN (x : Status) (vs : list Status) : bool :=
  existsb (Status_eqb x) vs.

(** The WHERE clause of the cursor's SELECT (lines 12-13). *)
Definition cur_where (now days_old : Z) (r : Row) : bool :=
  status_IN (status r) [triggered; failed]
  && (created_at r <? DATE_SUB now days_old).

(** [SELECT id FROM alarms WHERE ...]: the ids the cursor holds once it is
    opened, in table order. *)
Definition cur_select (now days_old : Z) (t : Table) : list Z :=
  List.map id (List.filter (cur_where now days_old) t).

(** [DELETE FROM alarms WHERE id = v]. *)
Definition delete_where_id (v : Z) (t : Table) : Table :=
  List.filter (fun r => negb (id r =? v)) t.

(** A connection to the database: what is committed, and the private copy
    of an open transaction, if one is open. *)
Record Session : Set := mkSession {
  committed : Table;
  working : option Table
}.

(** The table as the connection's own statements see it. *)
Definition view (s : Session) : Table :=
  match working s with
  | Some t => t
  | None => committed s
  end.

Definition idle (t : Table) : Session :=
  {| committed := t; working := None |}.

(** [START TRANSACTION]: commits a transaction that is still open and
    begins a new one. *)
Definition START_TRANSACTION (s : Session) : Session :=
  {| committed := view s; working := Some (view s) |}.

(** A DELETE statement: inside a transaction it changes the private copy,
    outside one it is committed at once. One that matches no row is not
    an error and raises no NOT FOUND condition. *)
Definition DELETE (v : Z) (s : Session) : Session :=
  match working s with
  | Some t => {| committed := committed s; working := Some (delete_where_id v t) |}
  | None => {| committed := delete_where_id v (committed s); working := None |}
  end.

Definition COMMIT (s : Session) : Session :=
  {| committed := view s; working := None |}.

(** What is left of a session whose connection ends with the transaction
    still open: the private copy is rolled back. *)
Definition abort (s : Session) : Table := committed s.

(** [read_loop] (lines 21-28): FETCH the next id; when the cursor is
    exhausted the NOT FOUND handler sets [done] and the loop is left;
    otherwise the row with that id is deleted. *)
Fixpoint read_loop (cur : list Z) (s : Session) : Session :=
  match cur with
  | [] => s
  | v_alarm_id :: cur' => read_loop cur' (DELETE v_alarm_id s)
  end.

(** The procedure, lines 5-33. *)
Definition sp_cleanup_old_alarms (days_old : Z) (now : Z) (s : Session) : Session :=
  let s1 := START_TRANSACTION s in
  let cur := cur_select now days_old (view s1) in
  let s2 := read_loop cur s1 in
  COMMIT s2.

(** The event, lines 35-39: [CALL sp_cleanup_old_alarms(30)]. *)
Definition ev_cleanup_old_alarms (now : Z) (s : Session) : Session :=
  sp_cleanup_old_alarms 30 now s.

(** The same loop with the cursor's enumeration order left open: the
    procedure run over an already opened cursor [cur]. *)
Definition sp_cleanup_with_cursor (cur : list Z) (s : Session) : Session :=
  COMMIT (read_loop cur (START_TRANSACTION s)).

(** The number of DELETE statements one call executes. *)
Definition deletions (days_old now : Z) (s : Session) : nat :=
  List.length (cur_select now days_old (view (START_TRANSACTION s))).

(** The set-based delete of the specification's Stale-Record Sweeper:
    DELETE FROM alarms WHERE status IN (triggered, failed)
    AND created_at < now - retention. *)
Definition sweep_delete (now retention_days : Z) (t : Table) : Table :=
  List.filter
    (fun r => negb (status_IN (status r) [triggered; failed]
                    && (created_at r <? now - retention_days * SECONDS_PER_DAY)))
    t.

(** *** The procedure statement by statement

    To speak about a call that is cut short, the body is also given as a
    machine that executes one statement per step. *)
Inductive Pc : Set :=
| AtStartTransaction              (* line 17 is next *)
| AtOpen                          (* line 19 is next *)
| AtFetch (cur : list Z)          (* line 22 is next; the ids not fetched yet *)
| AtClose                         (* line 30 is next *)
| AtCommit                        (* line 32 is next *)
| Returned.

Definition step (now days_old : Z) (c : Pc * Session) : Pc * Session :=
  let (pc, s) := c in
  match pc with
  | AtStartTransaction => (AtOpen, START_TRANSACTION s)
  | AtOpen => (AtFetch (cur_select now days_old (view s)), s)
  | AtFetch [] => (AtClose, s)
  | AtFetch (v_alarm_id :: cur') => (AtFetch cur', DELETE v_alarm_id s)
  | AtClose => (AtCommit, s)
  | AtCommit => (Returned, COMMIT s)
  | Returned => (Returned, s)
  end.

Fixpoint run (now days_old : Z) (n : nat) (c : Pc * Session) : Pc * Session :=
  match n with
  | O => c
  | S n' => run now days_old n' (step now days_old c)
  end.

(** The primary key of [alarms]. *)
Definition unique_ids (t : Table) : Prop := List.NoDup (List.map id t).

(** [DELETE FROM alarms WHERE id IN (vs)]. *)
Definition delete_where_id_in (vs : list Z) (t : Table) : Table :=
  List.filter (fun r => negb (existsb (Z.eqb (id r)) vs)) t.

(** A row the sweeper is meant to reclaim: in a terminal state, and created
    more than [days_old] days before [now]. *)
Definition stale (now days_old : Z) (r : Row) : Prop :=
  (status r = triggered \/ status r = failed)
  /\ created_at r < now - days_old * 86400.

(** What holds of every state a call on the committed table [t] passes
    through: nothing is committed before the last statement, and the
    private copy lacks exactly the rows whose ids were fetched so far. *)
Definition on_the_way (now days_old : Z) (t : Table) (c : Pc * Session) : Prop :=
  let cur0 := cur_select now days_old t in
  match fst c with
  | AtStartTransaction => snd c = idle t
  | AtOpen => snd c = mkSession t (Some t)
  | AtFetch cur =>
      exists fetched, fetched ++ cur = cur0
        /\ snd c = mkSession t (Some (delete_where_id_in fetched t))
  | AtClose | AtCommit => snd c = mkSession t (Some (delete_where_id_in cur0 t))
  | Returned => snd c = idle (delete_where_id_in cur0 t)
  end.

(** *** A table to try the procedure on *)

Definition DAY : Z := 86400.

Definition ex_table : Table :=
  [ mkRow 1 "BTC-USD" "a@example.com" triggered (2 * DAY);
    mkRow 2 "EUR/USD" "b@example.com" failed (5 * DAY);
    mkRow 3 "AAPL" "c@example.com" pending (1 * DAY);
    mkRow 4 "ETH-USD" "d@example.com" triggered (39 * DAY) ].

Definition ex_now : Z := 40 * DAY.

End Sweeper.

(* ===================================================================== *)
(** ** The indicator engine: RSI                                         *)
(* ===================================================================== *)

Module Indicator.

Local Open Scope Q_scope.

(** Modelled from the spec: the result of an indicator, a value or the
    signal that the series is too short. The worker that computes the
    indicators is not among the sources; prices are exact rationals. *)
Inductive Result : Set :=
| Value (x : Q)
| InsufficientData.

(** Modelled from the spec: the price deltas of a series given oldest
    first. *)
Fixpoint deltas (series : list Q) : list Q :=
  match series with
  | a :: ((b :: _) as rest) => (b - a) :: deltas rest
  | _ => []
  end.

(** Modelled from the spec: the last [n] elements of a list, the window
    of the indicator (all of the list when it is shorter). *)
Definition last_n {A : Type} (n : nat) (l : list A) : list A :=
  skipn (List.length l - n) l.

(** Modelled from the spec: the gain and the loss of one delta. *)
Definition gain (d : Q) : Q := if Qle_bool 0 d then d else 0.
Definition loss (d : Q) : Q := if Qle_bool d 0 then - d else 0.

Definition Qsum (l : list Q) : Q := fold_right Qplus 0 l.

(** Modelled from the spec: the average over the window of [period]
    deltas. *)
Definition average (l : list Q) (period : nat) : Q :=
  Qsum l / inject_Z (Z.of_nat period).

(** Modelled from the spec: [RSI(series, period)] of section 4.1. It needs
    [period + 1] samples and signals [InsufficientData] on fewer; it
    averages the gains and the losses of the last [period] deltas; a zero
    average loss gives 100; otherwise the ratio RS of the two averages
    gives 100 - 100 / (1 + RS). *)
Definition RSI (series : list Q) (period : nat) : Result :=
  if (List.length series <? period + 1)%nat then InsufficientData
  else
    let window := last_n period (deltas series) in
    let avg_gain := average (List.map gain window) period in
    let avg_loss := average (List.map loss window) period in
    if Qeq_bool avg_loss 0 then Value 100
    else
      let RS := avg_gain / avg_loss in
      Value (100 - 100 / (1 + RS)).

(** A series that never falls: every delta is a gain. *)
Definition all_gains (series : list Q) : Prop :=
  Forall (fun d => 0 <= d) (deltas series).

End Indicator.

(* ===================================================================== *)
(** ** JavaScript numbers, as far as the form compares them              *)
(* ===================================================================== *)

Module JS.

(** A double: NaN, an infinity, or a finite value, which is a rational.
    The handlers only compare numbers with small integer constants, and
    comparison of doubles is comparison of the rationals they denote. *)
Inductive number : Set :=
| NaN
| NegInfinity
| PosInfinity
| Finite (q : Q).

Definition isNaN (x : number) : bool :=
  match x with NaN => true | _ => false end.

Definition Qlt_bool (a b : Q) : bool := negb (Qle_bool b a).

(** [x < y]; false as soon as one side is NaN. *)
Definition lt (x y : number) : bool :=
  match x, y with
  | NaN, _ | _, NaN => false
  | _, NegInfinity => false
  | NegInfinity, _ => true
  | PosInfinity, _ => false
  | Finite _, PosInfinity => true
  | Finite a, Finite b => Qlt_bool a b
  end.

(** [x <= y]. *)
Definition le (x y : number) : bool :=
  match x, y with
  | NaN, _ | _, NaN => false
  | NegInfinity, _ => true
  | _, PosInfinity => true
  | _, NegInfinity => false
  | PosInfinity, _ => false
  | Finite a, Finite b => Qle_bool a b
  end.

(** [x > y]. *)
Definition gt (x y : number) : bool := lt y x.

Definition of_Z (z : Z) : number := Finite (inject_Z z).

(** [Number(v)] on a field typed [number | undefined]: undefined gives
    NaN, a number is itself. Whatever an input element delivers, the
    handler works on the number this conversion yields. *)
Definition Number (v : option number) : number :=
  match v with
  | Some n => n
  | None => NaN
  end.

(** [x] is a number with [lo <= x <= hi]. *)
Definition within (lo hi : Z) (x : number) : Prop :=
  exists q, x = Finite q /\ (inject_Z lo <= q <= inject_Z hi)%Q.

(** [x] is a number with [lo < x <= hi]. *)
Definition above_upto (lo hi : Z) (x : number) : Prop :=
  exists q, x = Finite q /\ (inject_Z lo < q <= inject_Z hi)%Q.

(** [x] is a number greater than 0. *)
Definition positive (x : number) : Prop :=
  match x with
  | Finite q => (0 < q)%Q
  | PosInfinity => True
  | NaN | NegInfinity => False
  end.

(** A number with a fractional part of zero. *)
Definition isInteger (x : number) : bool :=
  match x with
  | Finite q => (Qnum q mod Z.pos (Qden q) =? 0)%Z
  | _ => false
  end.

End JS.

(* ===================================================================== *)
(** ** The API client: types and the asset cache                         *)
(* ===================================================================== *)

(** The client module [../lib/api] the forms import; its text is the
    second part of frontend/pages/_app.tsx, and the line numbers below are
    those of that file. *)

Module Api.

Local Open Scope string_scope.

Inductive AssetClass : Set := crypto | forex | stock.
Inductive AlarmType : Set := price | rsi | bollinger.

(** [interface AlarmParams]: every field is optional. [direction] is the
    text the select element delivers. *)
Record AlarmParams : Set := mkParams {
  target_price : option JS.number;
  period : option JS.number;
  threshold : option JS.number;
  std_dev : option JS.number;
  direction : option string
}.

(** The object literal [{}]. *)
Definition no_params : AlarmParams :=
  {| target_price := None; period := None; threshold := None;
     std_dev := None; direction := None |}.

(** [interface AlarmData], as the form holds it: the two selects start
    out undefined, and [params] is read with [?.]. *)
Record AlarmData : Set := mkData {
  asset_class : option AssetClass;
  asset_symbol : string;
  alarm_type : option AlarmType;
  params : option AlarmParams;
  email : string
}.

(** [{ ...formData, params }]. *)
Definition with_params (formData : AlarmData) (p : AlarmParams) : AlarmData :=
  {| asset_class := asset_class formData;
     asset_symbol := asset_symbol formData;
     alarm_type := alarm_type formData;
     params := Some p;
     email := email formData |}.

(** [formData.params?.f]. *)
Definition opt_chain {A : Type} (p : option AlarmParams)
    (f : AlarmParams -> option A) : option A :=
  match p with
  | Some x => f x
  | None => None
  end.

(** [v || d] on an optional text: undefined and the empty text are falsy. *)
Definition or_else (v : option string) (d : string) : string :=
  match v with
  | Some EmptyString | None => d
  | Some s => s
  end.

Record APIError : Set := mkAPIError {
  statusCode : Z;
  message : string
}.

(** *** Asset caching *)

Record CacheEntry : Set := mkEntry {
  data : list string;
  timestamp : Z
}.

Definition CACHE_DURATION_MS : Z := 5 * 60 * 1000.

(** [const assetCache = {}]: the cache when the module is loaded. *)
Definition assetCache_initial : gmap string CacheEntry := ∅.

(** The property name an asset class indexes [assetCache] with. *)
Definition key (c : AssetClass) : string :=
  match c with
  | crypto => "crypto"
  | forex => "forex"
  | stock => "stock"
  end.

(** How the promise of [getAssets] settles. *)
Inductive Settled : Set :=
| Fulfilled (assets : list string)
| Rejected (err : APIError).

(** How a call of [getCachedAssets] completes. *)
Inductive Completion : Set :=
| Returns (assets : list string)
| Throws (err : APIError).

(** A call suspended at [await getAssets(assetClass)], with the locals it
    resumes with. *)
Record Suspended : Set := mkSuspended {
  s_assetClass : AssetClass;
  s_now : Z;
  s_cached : option CacheEntry
}.

Inductive Started : Set :=
| Hit (assets : list string)      (* returned before any request *)
| Awaits (k : Suspended).         (* [getAssets] has been called *)

(** Lines 142-149: up to the await. *)
Definition begin (assetCache : gmap string CacheEntry)
    (assetClass : AssetClass) (now : Z) : Started :=
  let cached := assetCache !! key assetClass in
  match cached with
  | Some c =>
      if (now - timestamp c <? CACHE_DURATION_MS)%Z then Hit (data c)
      else Awaits (mkSuspended assetClass now cached)
  | None => Awaits (mkSuspended assetClass now cached)
  end.

(** Lines 149-158: from the await on, over the cache as it is then. *)
Definition resume (assetCache : gmap string CacheEntry) (k : Suspended)
    (response : Settled) : gmap string CacheEntry * Completion :=
  match response with
  | Fulfilled assets =>
      (<[key (s_assetClass k) := mkEntry assets (s_now k)]> assetCache,
       Returns assets)
  | Rejected err =>
      match s_cached k with
      | Some c => (assetCache, Returns (data c))
      | None => (assetCache, Throws err)
      end
  end.

(** What one call did. *)
Record Call : Set := mkCall {
  completion : Completion;
  cache_after : gmap string CacheEntry;
  requests : list AssetClass;       (* the calls of [getAssets] *)
  writes : list string              (* the keys of [assetCache] assigned *)
}.

(** A call that runs to its end with nothing in between; [getAssets] is
    the network, [now] is [Date.now()]. *)
Definition getCachedAssets (getAssets : AssetClass -> Settled)
    (assetCache : gmap string CacheEntry) (assetClass : AssetClass) (now : Z) : Call :=
  match begin assetCache assetClass now with
  | Hit assets => mkCall (Returns assets) assetCache [] []
  | Awaits k =>
      let response := getAssets assetClass in
      let (cache', c) := resume assetCache k response in
      mkCall c cache' [assetClass]
        (match response with Fulfilled _ => [key assetClass] | Rejected _ => [] end)
  end.

(** One call of a session: its class, the clock, and the network then. *)
Record Invocation : Set := mkInvocation {
  i_assetClass : AssetClass;
  i_now : Z;
  i_getAssets : AssetClass -> Settled
}.

(** Calls made one after the other, each on the cache the one before
    left. *)
Fixpoint session (assetCache : gmap string CacheEntry) (calls : list Invocation)
    : list Call :=
  match calls with
  | [] => []
  | i :: rest =>
      let c := getCachedAssets (i_getAssets i) assetCache (i_assetClass i) (i_now i) in
      c :: session (cache_after c) rest
  end.

(** The cache the calls of a session leave behind. *)
Fixpoint cache_at (assetCache : gmap string CacheEntry) (calls : list Invocation)
    : gmap string CacheEntry :=
  match calls with
  | [] => assetCache
  | i :: rest =>
      cache_at
        (cache_after (getCachedAssets (i_getAssets i) assetCache (i_assetClass i) (i_now i)))
        rest
  end.

(** *** A network and a cache to try the calls on *)

Definition online (assets : list string) : AssetClass -> Settled :=
  fun _ => Fulfilled assets.

Definition offline : AssetClass -> Settled :=
  fun _ => Rejected (mkAPIError 500 "Failed to fetch").

Definition ex_cache : gmap string CacheEntry :=
  {[ "crypto" := mkEntry ["BTC-USD"; "ETH-USD"] 1000 ]}.

End Api.

(* ===================================================================== *)
(** ** react-hook-form, as far as the forms use it                       *)
(* ===================================================================== *)

Module HookForm.

Local Open Scope string_scope.

(** What [onSubmit] does with the form data: it throws inside its [try]
    before any request is made, or it reaches [createAlarm] with a
    payload. *)
Inductive Outcome : Set :=
| Throws (message : string)
| CallsCreateAlarm (payload : Api.AlarmData).

(** An item of a character class of a regular expression. *)
Inductive ClassItem : Set :=
| Range (lo hi : ascii)
| Single (c : ascii).

Definition item_matches (c : ascii) (i : ClassItem) : bool :=
  match i with
  | Range lo hi =>
      (nat_of_ascii lo <=? nat_of_ascii c)%nat && (nat_of_ascii c <=? nat_of_ascii hi)%nat
  | Single x => Ascii.eqb c x
  end.

Definition class_matches (cls : list ClassItem) (c : ascii) : bool :=
  existsb (item_matches c) cls.

Fixpoint every (p : ascii -> bool) (s : string) : bool :=
  match s with
  | EmptyString => true
  | String c rest => p c && every p rest
  end.

(** [/^[cls]+$/.test(s)]: one or more characters, all of the class, from
    the start of the text to its end. *)
Definition test_class_plus (cls : list ClassItem) (s : string) : bool :=
  match s with
  | EmptyString => false
  | String _ _ => every (class_matches cls) s
  end.

(** The rules [register] is given for a text field: the message of
    [required], and a pattern with its message. *)
Record RegisterOptions : Set := mkRules {
  required : option string;
  pattern : option (list ClassItem * string)
}.

(** The verdict on one field when the form is submitted: the message to
    show, or none. [required] is checked first and fails on the empty
    text; the pattern is tried on a text that is not empty. *)
Definition validateField (rules : RegisterOptions) (value : string) : option string :=
  match required rules, value with
  | Some msg, EmptyString => Some msg
  | _, _ =>
      match pattern rules, value with
      | Some (cls, msg), String _ _ =>
          if test_class_plus cls value then None else Some msg
      | _, _ => None
      end
  end.

End HookForm.

(* ===================================================================== *)
(** ** frontend/components/AlarmForm.tsx                                 *)
(* ===================================================================== *)

Module AlarmForm.

Import Api HookForm.
Local Open Scope string_scope.

(** Lines 55-79: the parameters of the payload, or the message thrown. *)
Definition build_params (formData : AlarmData) : string + AlarmParams :=
  match alarm_type formData with
  | Some price =>
      let targetPrice := JS.Number (opt_chain (params formData) target_price) in
      if JS.isNaN targetPrice then inl "Invalid target price value"
      else inr {| target_price := Some targetPrice; period := None;
                  threshold := None; std_dev := None; direction := None |}
  | Some rsi =>
      let period' := JS.Number (opt_chain (params formData) period) in
      let threshold' := JS.Number (opt_chain (params formData) threshold) in
      if JS.isNaN period' || JS.isNaN threshold' then inl "Invalid RSI parameters"
      else inr {| target_price := None; period := Some period';
                  threshold := Some threshold'; std_dev := None; direction := None |}
  | Some bollinger =>
      let period' := JS.Number (opt_chain (params formData) period) in
      let stdDev := JS.Number (opt_chain (params formData) std_dev) in
      if JS.isNaN period' || JS.isNaN stdDev then inl "Invalid Bollinger parameters"
      else inr {| target_price := None; period := Some period';
                  threshold := None; std_dev := Some stdDev; direction := None |}
  | None => inr no_params
  end.

(** Lines 51-108, up to the request. *)
Definition onSubmit (formData : AlarmData) : Outcome :=
  match build_params formData with
  | inl message => Throws message
  | inr p => CallsCreateAlarm (with_params formData p)
  end.

End AlarmForm.

(* ===================================================================== *)
(** ** The later revision of the form (unnamed/part_001, from line 38)   *)
(* ===================================================================== *)

Module AlarmForm001.

Import Api HookForm.
Local Open Scope string_scope.

(** Lines 73-102. *)
Definition build_params (formData : AlarmData) : string + AlarmParams :=
  match alarm_type formData with
  | Some price =>
      let targetPrice := JS.Number (opt_chain (params formData) target_price) in
      let direction' := or_else (opt_chain (params formData) direction) "above" in
      if JS.isNaN targetPrice || JS.le targetPrice (JS.of_Z 0)
      then inl "Invalid price value"
      else inr {| target_price := Some targetPrice; period := None;
                  threshold := None; std_dev := None;
                  direction := Some direction' |}
  | Some rsi =>
      let period' := JS.Number (opt_chain (params formData) period) in
      let threshold' := JS.Number (opt_chain (params formData) threshold) in
      if JS.isNaN period' || JS.lt period' (JS.of_Z 1) || JS.gt period' (JS.of_Z 100)
      then inl "Invalid RSI period"
      else if JS.isNaN threshold' || JS.lt threshold' (JS.of_Z 0)
                || JS.gt threshold' (JS.of_Z 100)
      then inl "Invalid RSI threshold"
      else inr {| target_price := None; period := Some period';
                  threshold := Some threshold'; std_dev := None; direction := None |}
  | Some bollinger =>
      let period' := JS.Number (opt_chain (params formData) period) in
      let stdDev := JS.Number (opt_chain (params formData) std_dev) in
      if JS.isNaN period' || JS.lt period' (JS.of_Z 1) || JS.gt period' (JS.of_Z 100)
      then inl "Invalid Bollinger period"
      else if JS.isNaN stdDev || JS.le stdDev (JS.of_Z 0) || JS.gt stdDev (JS.of_Z 10)
      then inl "Invalid standard deviation"
      else inr {| target_price := None; period := Some period';
                  threshold := None; std_dev := Some stdDev; direction := None |}
  | None => inr no_params
  end.

(** Lines 69-123, up to the request. *)
Definition onSubmit (formData : AlarmData) : Outcome :=
  match build_params formData with
  | inl message => Throws message
  | inr p => CallsCreateAlarm (with_params formData p)
  end.

(** The character class of line 162, [[A-Za-z0-9-/]]: three ranges, then
    the hyphen and the slash as themselves. *)
Definition symbol_class : list ClassItem :=
  [Range "A" "Z"; Range "a" "z"; Range "0" "9"; Single "-"; Single "/"]%char.

(** Lines 159-165: the rules of [register('asset_symbol', ...)]. *)
Definition asset_symbol_rules : RegisterOptions :=
  {| required := Some "Asset symbol is required";
     pattern := Some (symbol_class, "Invalid symbol format") |}.

(** The error the submitted form shows under the symbol field. *)
Definition errors_asset_symbol (formData : AlarmData) : option string :=
  validateField asset_symbol_rules (asset_symbol formData).

End AlarmForm001.

(** The characters the data model allows in a symbol, written out. *)
Definition SYMBOL_ALPHABET : string :=
  "ABCDEFGHIJKLMNOPQRSTUVWXYZabcdefghijklmnopqrstuvwxyz0123456789-/"%string.

Definition symbol_char (c : ascii) : Prop :=
  In c (list_ascii_of_string SYMBOL_ALPHABET).

(** ** Forms to try the handlers on *)

Module Samples.

Import Api.
Local Open Scope string_scope.

Definition num (z : Z) : JS.number := JS.of_Z z.

Definition ex_form (ty : AlarmType) (p : AlarmParams) : AlarmData :=
  {| asset_class := Some crypto; asset_symbol := "BTC-USD";
     alarm_type := Some ty; params := Some p; email := "a@example.com" |}.

Definition ex_rsi : AlarmData :=
  ex_form rsi {| target_price := None; period := Some (num 14);
                 threshold := Some (num 30); std_dev := None; direction := None |}.

Definition ex_bollinger (p sd : Z) : AlarmData :=
  ex_form bollinger {| target_price := None; period := Some (num p);
                       threshold := None; std_dev := Some (num sd); direction := None |}.

Definition ex_price (tp : Z) (dir : option string) : AlarmData :=
  ex_form price {| target_price := Some (num tp); period := None;
                   threshold := None; std_dev := None; direction := dir |}.

End Samples.

(* ===================================================================== *)
(** ** More of the API client                                            *)
(* ===================================================================== *)

Module ApiMore.

Import Api.
Local Open Scope string_scope.

(** Lines 164-166 of frontend/pages/_app.tsx: the type guard
    [['crypto', 'forex', 'stock'].includes(assetClass)]. *)
Definition isValidAssetClass (assetClass : string) : bool :=
  existsb (String.eqb assetClass) ["crypto"; "forex"; "stock"].

End ApiMore.

(* ===================================================================== *)
(** ** The fetch helper: [fetchWithError]                                *)
(* ===================================================================== *)

Module Fetch.

Local Open Scope string_scope.

Local Unset Elimination Schemes.

(** A value as [res.json()] or [JSON.parse] yields it. The properties of
    an object are listed with their names, each name once. *)
Inductive JSValue : Set :=
| JNull
| JBool (b : bool)
| JNum (n : JS.number)
| JStr (s : string)
| JArr (items : list JSValue)
| JObj (props : list (string * JSValue)).

Local Set Elimination Schemes.

(** Whether [v || ...] stops at [v]. *)
Definition truthy (v : JSValue) : bool :=
  match v with
  | JNull => false
  | JBool b => b
  | JNum JS.NaN => false
  | JNum (JS.Finite q) => negb (Qeq_bool q 0)
  | JNum _ => true
  | JStr EmptyString => false
  | JStr _ => true
  | JArr _ | JObj _ => true
  end.

(** What reading a property gives: a TypeError on null, undefined where
    the value has no such property, the property's value otherwise. *)
Inductive Property : Set :=
| PropThrows
| PropUndefined
| PropValue (v : JSValue).

Fixpoint lookup_prop (name : string) (props : list (string * JSValue)) : Property :=
  match props with
  | [] => PropUndefined
  | (k, v) :: rest => if String.eqb k name then PropValue v else lookup_prop name rest
  end.

(** [v.detail]: numbers, booleans, texts and arrays have no property of
    that name. *)
Definition get_detail (v : JSValue) : Property :=
  match v with
  | JNull => PropThrows
  | JObj props => lookup_prop "detail" props
  | _ => PropUndefined
  end.

(** What a [catch] clause receives, an [APIError] apart: an [Error] with
    its message, or some other value. *)
Inductive Caught : Set :=
| ErrorObject (message : string)
| NotAnError.

(** The response as the helper reads it: [res.ok], [res.status],
    [res.statusText], and how [res.json()] settles. *)
Record Response : Set := mkResponse {
  ok : bool;
  status : Z;
  statusText : string;
  json : JSValue + Caught
}.

(** How [fetch(url, options)] settles. *)
Inductive FetchOutcome : Set :=
| Responds (res : Response)
| FetchRejects (err : Caught).

(** The third argument of [new APIError]. *)
Inductive Details : Set :=
| DetailsBody (errorData : JSValue)
| DetailsCaught (err : Caught).

(** The text [Error] makes of the message it is constructed with
    (ToString). [number_text] is the text of a number. An array is its
    elements' texts joined by commas, null elements giving the empty
    text; every object is '[object Object]'. *)
Fixpoint text_of (number_text : JS.number -> string) (v : JSValue) : string :=
  match v with
  | JNull => "null"
  | JBool true => "true"
  | JBool false => "false"
  | JNum n => number_text n
  | JStr s => s
  | JArr items =>
      (fix join (l : list JSValue) : string :=
         match l with
         | [] => ""
         | x :: rest =>
             let element :=
               match x with
               | JNull => ""
               | _ => text_of number_text x
               end in
             match rest with
             | [] => element
             | _ :: _ => element ++ "," ++ join rest
             end
         end) items
  | JObj _ => "[object Object]"
  end.

(** An [APIError] as constructed: [message] is the text of the message
    argument, as [super(message)] sets it. *)
Record APIErrorObject : Set := mkAPIErrorObject {
  statusCode : Z;
  message : string;
  details : Details
}.

(** How the promise of [fetchWithError] settles. *)
Inductive Settles : Set :=
| Resolves (v : JSValue)
| RejectsAPIError (e : APIErrorObject)
| Rejects (err : Caught).

(** Lines 109-112: the outer [catch] on something that is no [APIError]. *)
Definition wrap (err : Caught) : Settles :=
  RejectsAPIError
    {| statusCode := 500;
       message := match err with
                  | ErrorObject m => m
                  | NotAnError => "Unknown error"
                  end;
       details := DetailsCaught err |}.

(** [detail || statusText || 'API error']: the value handed to the
    constructor. *)
Definition message_of (detail : Property) (statusText : string) : JSValue :=
  match detail with
  | PropValue d =>
      if truthy d then d
      else if truthy (JStr statusText) then JStr statusText else JStr "API error"
  | _ => if truthy (JStr statusText) then JStr statusText else JStr "API error"
  end.

(** Lines 96-113. [type_error_message] is the text the engine gives the
    TypeError of reading a property of null. A rejection of the promise
    returned at line 108 happens after the [try] is left and is not
    caught. *)
Definition fetchWithError (number_text : JS.number -> string)
    (type_error_message : string) (o : FetchOutcome) : Settles :=
  match o with
  | FetchRejects err => wrap err
  | Responds res =>
      if negb (ok res) then
        let errorData :=
          match json res with
          | inl v => v
          | inr _ => JObj [("detail", JStr (statusText res))]
          end in
        match get_detail errorData with
        | PropThrows => wrap (ErrorObject type_error_message)
        | detail =>
            RejectsAPIError
              {| statusCode := status res;
                 message := text_of number_text (message_of detail (statusText res));
                 details := DetailsBody errorData |}
        end
      else
        match json res with
        | inl v => Resolves v
        | inr err => Rejects err
        end
  end.

End Fetch.

(* ===================================================================== *)
(** ** Regular expressions, as far as the forms' patterns need them      *)
(* ===================================================================== *)

Module Regex.

Import HookForm.
Local Open Scope string_scope.

Inductive re : Set :=
| Void                          (* matches nothing *)
| Eps                           (* the empty text *)
| Chars (cls : list ClassItem)  (* one character of a class *)
| Seq (r1 r2 : re)
| Alt (r1 r2 : re)
| Star (r : re).

(** [r+] and [r{2,}]. *)
Definition Plus (r : re) : re := Seq r (Star r).
Definition AtLeast2 (r : re) : re := Seq r (Seq r (Star r)).

(** The canonical form of a character under the flag [i]: a lower-case
    letter becomes the upper-case one, everything else stays. *)
Definition canonicalize (c : ascii) : ascii :=
  let n := nat_of_ascii c in
  if (97 <=? n)%nat && (n <=? 122)%nat then ascii_of_nat (n - 32) else c.

Definition all_chars : list ascii := List.map ascii_of_nat (seq 0 256).

(** A character matches a class: as it is, or, under the flag [i], when
    its canonical form is that of a member of the class. *)
Definition char_matches (ignoreCase : bool) (cls : list ClassItem) (c : ascii) : bool :=
  if ignoreCase
  then existsb (fun a => class_matches cls a
                         && Ascii.eqb (canonicalize a) (canonicalize c)) all_chars
  else class_matches cls c.

Fixpoint nullable (r : re) : bool :=
  match r with
  | Void => false
  | Eps => true
  | Chars _ => false
  | Seq r1 r2 => nullable r1 && nullable r2
  | Alt r1 r2 => nullable r1 || nullable r2
  | Star _ => true
  end.

(** What is left to match once [c] has been read. *)
Fixpoint deriv (ignoreCase : bool) (c : ascii) (r : re) : re :=
  match r with
  | Void | Eps => Void
  | Chars cls => if char_matches ignoreCase cls c then Eps else Void
  | Seq r1 r2 =>
      if nullable r1
      then Alt (Seq (deriv ignoreCase c r1) r2) (deriv ignoreCase c r2)
      else Seq (deriv ignoreCase c r1) r2
  | Alt r1 r2 => Alt (deriv ignoreCase c r1) (deriv ignoreCase c r2)
  | Star r1 => Seq (deriv ignoreCase c r1) (Star r1)
  end.

(** [/^r$/.test(s)], with the flag [i] or without. *)
Fixpoint test (ignoreCase : bool) (r : re) (s : string) : bool :=
  match s with
  | EmptyString => nullable r
  | String c rest => test ignoreCase (deriv ignoreCase c r) rest
  end.

(** The rules [register] is given for a text field, with a pattern of any
    shape: the expression, its flag [i], and the message. *)
Record TextRules : Set := mkTextRules {
  required_message : option string;
  pattern_rule : option (re * bool * string)
}.

(** As [validateField] of [HookForm]: [required] first, on the empty
    text; the pattern on a text that is not empty. *)
Definition validateText (rules : TextRules) (value : string) : option string :=
  match required_message rules, value with
  | Some msg, EmptyString => Some msg
  | _, _ =>
      match pattern_rule rules, value with
      | Some (r, ignoreCase, msg), String _ _ =>
          if test ignoreCase r value then None else Some msg
      | _, _ => None
      end
  end.

(** The pattern of the email field, the same in both forms:
    [/^[A-Z0-9._%+-]+@[A-Z0-9.-]+\.[A-Z]{2,}$/i]. *)
Definition email_local : list ClassItem :=
  [Range "A" "Z"; Range "0" "9"; Single "."; Single "_"; Single "%";
   Single "+"; Single "-"]%char.

Definition email_domain : list ClassItem :=
  [Range "A" "Z"; Range "0" "9"; Single "."; Single "-"]%char.

Definition email_re : re :=
  Seq (Plus (Chars email_local))
    (Seq (Chars [Single "@"%char])
       (Seq (Plus (Chars email_domain))
          (Seq (Chars [Single "."%char])
             (AtLeast2 (Chars [Range "A" "Z"]%char))))).

(** [register('email', ...)]: lines 266-272 of
    frontend/components/AlarmForm.tsx, lines 364-370 of the later form. *)
Definition email_rules : TextRules :=
  {| required_message := Some "Email is required";
     pattern_rule := Some (email_re, true, "Invalid email address") |}.

(** The error the submitted form shows under the email field. *)
Definition errors_email (formData : Api.AlarmData) : option string :=
  validateText email_rules (Api.email formData).

(** The characters of the three parts of an address, written out. *)
Definition LOCAL_ALPHABET : string :=
  "ABCDEFGHIJKLMNOPQRSTUVWXYZabcdefghijklmnopqrstuvwxyz0123456789._%+-".
Definition DOMAIN_ALPHABET : string :=
  "ABCDEFGHIJKLMNOPQRSTUVWXYZabcdefghijklmnopqrstuvwxyz0123456789.-".
Definition LETTERS : string :=
  "ABCDEFGHIJKLMNOPQRSTUVWXYZabcdefghijklmnopqrstuvwxyz".

Definition all_of (alphabet : string) (s : string) : Prop :=
  Forall (fun c => In c (list_ascii_of_string alphabet)) (list_ascii_of_string s).

End Regex.

(* ===================================================================== *)
(** ** The submit handlers as a whole                                    *)
(* ===================================================================== *)

Module Submit.

Import Api HookForm Fetch.
Local Open Scope string_scope.

(** How [createAlarm(payload)] settles, as the handlers tell it apart: it
    resolves, it rejects with an [APIError] whose message text is given,
    or it rejects with something else. *)
Inductive ApiOutcome : Set :=
| ApiResolves
| ApiRejectsAPIError (message : string)
| ApiRejects (err : Caught).

Inductive Toast : Set :=
| toast_success (text : string)
| toast_error (text : string).

(** What one submission of the later form did. *)
Record Submitted : Set := mkSubmitted {
  sent : list AlarmData;          (* the calls of [createAlarm] *)
  shown : Toast;
  form_reset : bool;
  isSubmitting : bool             (* after the [finally] *)
}.

(** Lines 69-123 of the later form. What [onSubmit] throws at lines 79-99
    is a plain [Error], so line 115 takes its second branch. *)
Definition submit (createAlarm : AlarmData -> ApiOutcome) (formData : AlarmData)
    : Submitted :=
  match AlarmForm001.onSubmit formData with
  | Throws _ =>
      mkSubmitted [] (toast_error ("Error: " ++ "Failed to create alarm")) false false
  | CallsCreateAlarm payload =>
      match createAlarm payload with
      | ApiResolves =>
          mkSubmitted [payload] (toast_success "Alarm created successfully!") true false
      | ApiRejectsAPIError message =>
          mkSubmitted [payload] (toast_error ("Error: " ++ message)) false false
      | ApiRejects _ =>
          mkSubmitted [payload] (toast_error ("Error: " ++ "Failed to create alarm"))
            false false
      end
  end.

Inductive SubmitStatus : Set := status_idle | status_success | status_error.

(** What one submission of frontend/components/AlarmForm.tsx did; the
    error message is the value handed to [setErrorMessage]. *)
Record SubmittedLegacy : Set := mkSubmittedLegacy {
  sent_legacy : list AlarmData;
  submitStatus : SubmitStatus;
  errorMessage : JSValue;
  form_reset_legacy : bool;
  isSubmitting_legacy : bool
}.

(** Lines 95-104: the message for a rejection. [JSON_parse] is
    [JSON.parse], with [None] where it throws. *)
Definition error_message_for (JSON_parse : string -> option JSValue)
    (o : ApiOutcome) : JSValue :=
  match o with
  | ApiResolves => JStr ""
  | ApiRejectsAPIError message =>
      match JSON_parse message with
      | Some errorDetail =>
          match get_detail errorDetail with
          | PropThrows => JStr message
          | PropUndefined => JStr "API Error occurred"
          | PropValue d => if truthy d then d else JStr "API Error occurred"
          end
      | None => JStr message
      end
  | ApiRejects (ErrorObject message) => JStr message
  | ApiRejects NotAnError => JStr "Unknown error occurred"
  end.

(** Lines 51-108 of frontend/components/AlarmForm.tsx. *)
Definition submit_legacy (JSON_parse : string -> option JSValue)
    (createAlarm : AlarmData -> ApiOutcome) (formData : AlarmData)
    : SubmittedLegacy :=
  match AlarmForm.onSubmit formData with
  | Throws message =>
      mkSubmittedLegacy [] status_error (JStr message) false false
  | CallsCreateAlarm payload =>
      match createAlarm payload with
      | ApiResolves => mkSubmittedLegacy [payload] status_success (JStr "") true false
      | o =>
          mkSubmittedLegacy [payload] status_error (error_message_for JSON_parse o)
            false false
      end
  end.

(** The fields of the params a handler reads for an alarm type. *)
Definition active_fields (ty : option AlarmType) (p : option AlarmParams) : AlarmParams :=
  match ty with
  | Some price =>
      {| target_price := opt_chain p target_price; period := None; threshold := None;
         std_dev := None; direction := opt_chain p direction |}
  | Some rsi =>
      {| target_price := None; period := opt_chain p period;
         threshold := opt_chain p threshold; std_dev := None; direction := None |}
  | Some bollinger =>
      {| target_price := None; period := opt_chain p period; threshold := None;
         std_dev := opt_chain p std_dev; direction := None |}
  | None => no_params
  end.

End Submit.

(* ===================================================================== *)
(** * Properties of the sweeper                                          *)
(* ===================================================================== *)

Module SweeperFacts.

Import Sweeper.

Lemma filter_twice {A : Type} (f g : A -> bool) (l : list A) :
  List.filter f (List.filter g l) = List.filter (fun x => g x && f x) l.
Proof.
  induction l as [|a l IH]; simpl; [reflexivity|].
  destruct (g a); simpl; [destruct (f a)|]; now rewrite IH.
Qed.

Lemma filter_all {A : Type} (f : A -> bool) (l : list A) :
  (forall x, In x l -> f x = true) -> List.filter f l = l.
Proof.
  induction l as [|a l IH]; simpl; intros H; [reflexivity|].
  rewrite (H a (or_introl eq_refl)), IH; auto.
Qed.

Lemma delete_where_id_in_cons (v : Z) (vs : list Z) (t : Table) :
  delete_where_id_in vs (delete_where_id v t) = delete_where_id_in (v :: vs) t.
Proof.
  unfold delete_where_id_in, delete_where_id.
  rewrite filter_twice. apply filter_ext. intros r. simpl.
  now rewrite negb_orb.
Qed.

Lemma delete_where_id_in_nil (t : Table) : delete_where_id_in [] t = t.
Proof. apply filter_all. reflexivity. Qed.

(** Inside a transaction the loop only touches the private copy. *)
Lemma read_loop_in_transaction (cur : list Z) (c t : Table) :
  read_loop cur (mkSession c (Some t))
  = mkSession c (Some (delete_where_id_in cur t)).
Proof.
  revert t. induction cur as [|v cur IH]; intros t; simpl.
  - now rewrite delete_where_id_in_nil.
  - unfold DELETE. simpl. now rewrite IH, delete_where_id_in_cons.
Qed.

Lemma sp_cleanup_with_cursor_eq (cur : list Z) (s : Session) :
  sp_cleanup_with_cursor cur s = idle (delete_where_id_in cur (view s)).
Proof.
  unfold sp_cleanup_with_cursor, START_TRANSACTION.
  now rewrite read_loop_in_transaction.
Qed.

Lemma sp_cleanup_old_alarms_eq (days_old now : Z) (s : Session) :
  sp_cleanup_old_alarms days_old now s
  = idle (delete_where_id_in (cur_select now days_old (view s)) (view s)).
Proof.
  rewrite <- sp_cleanup_with_cursor_eq. reflexivity.
Qed.

Lemma unique_ids_inj (t : Table) :
  unique_ids t ->
  forall r r', In r t -> In r' t -> id r = id r' -> r = r'.
Proof.
  unfold unique_ids. induction t as [|a t IH]; simpl; intros U r r' Hr Hr' E.
  - contradiction.
  - inversion U as [|x l Hnotin Hnodup]; subst.
    destruct Hr as [<-|Hr], Hr' as [<-|Hr']; auto.
    + exfalso. apply Hnotin. rewrite E. now apply in_map.
    + exfalso. apply Hnotin. rewrite <- E. now apply in_map.
Qed.

Lemma cur_where_stale (now days_old : Z) (r : Row) :
  cur_where now days_old r = true <-> stale now days_old r.
Proof.
  unfold cur_where, stale, DATE_SUB, SECONDS_PER_DAY.
  rewrite andb_true_iff, Z.ltb_lt.
  destruct (status r); simpl; intuition (discriminate || auto).
Qed.

Lemma cur_where_not_stale (now days_old : Z) (r : Row) :
  cur_where now days_old r = false <-> ~ stale now days_old r.
Proof.
  rewrite <- cur_where_stale. destruct (cur_where now days_old r); intuition congruence.
Qed.

(** With a primary key, the ids the cursor holds pick out the selected rows
    and no others. *)
Lemma cursor_picks_selected (now days_old : Z) (t : Table) :
  unique_ids t ->
  forall r, In r t ->
    existsb (Z.eqb (id r)) (cur_select now days_old t) = cur_where now days_old r.
Proof.
  intros U r Hr. unfold cur_select.
  destruct (cur_where now days_old r) eqn:W.
  - apply existsb_exists. exists (id r). split; [|apply Z.eqb_refl].
    apply in_map. apply filter_In. auto.
  - destruct (existsb _ _) eqn:E; [|reflexivity].
    apply existsb_exists in E. destruct E as (v & Hv & Ev).
    apply Z.eqb_eq in Ev. apply in_map_iff in Hv. destruct Hv as (r' & Er' & Hr').
    apply filter_In in Hr'. destruct Hr' as [Hr' W'].
    assert (r = r') by (eapply unique_ids_inj; eauto; congruence).
    subst r'. congruence.
Qed.

Lemma delete_where_id_in_selected (now days_old : Z) (t : Table) :
  unique_ids t ->
  delete_where_id_in (cur_select now days_old t) t
  = List.filter (fun r => negb (cur_where now days_old r)) t.
Proof.
  intros U. unfold delete_where_id_in. apply filter_ext_in. intros r Hr.
  now rewrite cursor_picks_selected.
Qed.

Lemma delete_where_id_in_same_ids (cur cur' : list Z) (t : Table) :
  (forall v, In v cur <-> In v cur') ->
  delete_where_id_in cur t = delete_where_id_in cur' t.
Proof.
  intros H. unfold delete_where_id_in. apply filter_ext. intros r. f_equal.
  apply eq_true_iff_eq. rewrite !existsb_exists.
  split; intros (v & Hv & E); exists v; split; auto; now apply H.
Qed.

Lemma sweep_delete_eq (now days_old : Z) (t : Table) :
  sweep_delete now days_old t
  = List.filter (fun r => negb (cur_where now days_old r)) t.
Proof. reflexivity. Qed.

Lemma filter_none {A : Type} (f : A -> bool) (l : list A) :
  (forall x, In x l -> f x = false) -> List.filter f l = [].
Proof.
  induction l as [|a l IH]; simpl; intros H; [reflexivity|].
  rewrite (H a (or_introl eq_refl)). auto.
Qed.

(** Once the ids of all selected rows are deleted, no selected row is
    left, with or without a primary key. *)
Lemma nothing_selected_after (now days_old : Z) (t : Table) :
  cur_select now days_old
    (delete_where_id_in (cur_select now days_old t) t) = [].
Proof.
  unfold cur_select at 1. rewrite filter_none; [reflexivity|].
  intros r Hr. apply filter_In in Hr. destruct Hr as [Hr N].
  apply negb_true_iff in N.
  destruct (cur_where now days_old r) eqn:W; [|reflexivity].
  rewrite <- N. symmetry. apply existsb_exists.
  exists (id r). split; [|apply Z.eqb_refl].
  apply in_map. apply filter_In. auto.
Qed.

Example ex_cursor : cur_select ex_now 30 ex_table = [1; 2].
Proof. reflexivity. Qed.

Example ex_cleanup :
  sp_cleanup_old_alarms 30 ex_now (idle ex_table)
  = idle [ mkRow 3 "AAPL" "c@example.com" pending (1 * DAY);
           mkRow 4 "ETH-USD" "d@example.com" triggered (39 * DAY) ].
Proof. reflexivity. Qed.

(** C1. On a table whose ids are unique, [sp_cleanup_old_alarms days_old]
    leaves exactly the rows that are not stale: a row is in the table
    afterwards if and only if it was there before and it is not the case
    that its status is triggered or failed and its created_at lies more
    than [days_old] days before now. The rows that stay are the old rows,
    unchanged and in their order, the transaction is closed, and the
    event runs the procedure with 30 days. *)
Theorem sp_cleanup_deletes_exactly_stale (days_old now : Z) (s : Session) :
  unique_ids (view s) ->
  sp_cleanup_old_alarms days_old now s
    = idle (List.filter (fun r => negb (cur_where now days_old r)) (view s))
  /\ (forall r, In r (view (sp_cleanup_old_alarms days_old now s))
                <-> In r (view s) /\ ~ stale now days_old r)
  /\ (forall r, In r (view (ev_cleanup_old_alarms now s))
                <-> In r (view s) /\ ~ stale now 30 r).
Proof.
  intros U.
  assert (E : forall d, sp_cleanup_old_alarms d now s
            = idle (List.filter (fun r => negb (cur_where now d r)) (view s))).
  { intros d. now rewrite sp_cleanup_old_alarms_eq, delete_where_id_in_selected. }
  assert (M : forall d r, In r (view (sp_cleanup_old_alarms d now s))
                <-> In r (view s) /\ ~ stale now d r).
  { intros d r. rewrite E. unfold idle, view; simpl.
    rewrite filter_In, negb_true_iff, cur_where_not_stale. reflexivity. }
  split; [apply E|]. split; [apply M|]. intros r. apply M.
Qed.

Lemma sp_cleanup_deletes_exactly_stale_witness :
  unique_ids (view (idle ex_table))
  /\ sp_cleanup_old_alarms 30 ex_now (idle ex_table)
     = idle [ mkRow 3 "AAPL" "c@example.com" pending (1 * DAY);
              mkRow 4 "ETH-USD" "d@example.com" triggered (39 * DAY) ].
Proof.
  assert (U : unique_ids (view (idle ex_table))).
  { unfold unique_ids; simpl. repeat constructor; simpl; intuition discriminate. }
  split; [exact U|].
  exact (proj1 (sp_cleanup_deletes_exactly_stale 30 ex_now (idle ex_table) U)).
Defined.

(** C2. On a table whose ids are unique, the row-by-row loop over the
    cursor yields the same final state as the single set-based delete
    DELETE FROM alarms WHERE status IN (triggered, failed) AND created_at
    < now - retention, in whatever order the cursor enumerates the
    selected ids. *)
Theorem cursor_loop_equals_set_delete
    (days_old now : Z) (s : Session) (cur : list Z) :
  unique_ids (view s) ->
  Permutation cur (cur_select now days_old (view s)) ->
  sp_cleanup_with_cursor cur s = idle (sweep_delete now days_old (view s))
  /\ sp_cleanup_old_alarms days_old now s = idle (sweep_delete now days_old (view s)).
Proof.
  intros U P. rewrite sweep_delete_eq, <- delete_where_id_in_selected by exact U.
  split.
  - rewrite sp_cleanup_with_cursor_eq. f_equal.
    apply delete_where_id_in_same_ids. intros v; split; apply Permutation_in;
      [exact P | now apply Permutation_sym].
  - apply sp_cleanup_old_alarms_eq.
Qed.

Lemma cursor_loop_equals_set_delete_witness :
  unique_ids (view (idle ex_table))
  /\ Permutation [2; 1] (cur_select ex_now 30 (view (idle ex_table)))
  /\ sp_cleanup_with_cursor [2; 1] (idle ex_table)
     = idle (sweep_delete ex_now 30 ex_table).
Proof.
  assert (U : unique_ids (view (idle ex_table))).
  { unfold unique_ids; simpl. repeat constructor; simpl; intuition discriminate. }
  assert (P : Permutation [2; 1] (cur_select ex_now 30 (view (idle ex_table)))).
  { apply perm_swap. }
  split; [exact U|]. split; [exact P|].
  exact (proj1 (cursor_loop_equals_set_delete 30 ex_now (idle ex_table) [2; 1] U P)).
Defined.

(** C3. The sweeper is idempotent: at a fixed time, a second run right
    after the first leaves the state of the first, and it executes no
    DELETE at all; a run on a table without selected rows executes no
    DELETE and leaves the table as it is. *)
Theorem sp_cleanup_idempotent (days_old now : Z) (s : Session) :
  let s1 := sp_cleanup_old_alarms days_old now s in
  sp_cleanup_old_alarms days_old now s1 = s1
  /\ deletions days_old now s1 = 0%nat
  /\ (cur_select now days_old (view s) = [] ->
      deletions days_old now s = 0%nat
      /\ sp_cleanup_old_alarms days_old now s = idle (view s)).
Proof.
  cbv zeta. rewrite !sp_cleanup_old_alarms_eq.
  unfold deletions. cbn [view idle working committed START_TRANSACTION].
  rewrite nothing_selected_after. rewrite delete_where_id_in_nil.
  split; [reflexivity|]. split; [reflexivity|].
  intros E. rewrite E. now rewrite delete_where_id_in_nil.
Qed.

Lemma sp_cleanup_idempotent_witness :
  sp_cleanup_old_alarms 30 ex_now (sp_cleanup_old_alarms 30 ex_now (idle ex_table))
    = sp_cleanup_old_alarms 30 ex_now (idle ex_table)
  /\ sp_cleanup_old_alarms 30 ex_now (idle [mkRow 3 "AAPL" "c@example.com" pending (1 * DAY)])
     = idle [mkRow 3 "AAPL" "c@example.com" pending (1 * DAY)].
Proof.
  split.
  - exact (proj1 (sp_cleanup_idempotent 30 ex_now (idle ex_table))).
  - apply (proj2 (proj2 (sp_cleanup_idempotent 30 ex_now
             (idle [mkRow 3 "AAPL" "c@example.com" pending (1 * DAY)])))).
    reflexivity.
Defined.

(** *** The call statement by statement *)

Lemma delete_where_id_in_snoc (v : Z) (vs : list Z) (t : Table) :
  delete_where_id v (delete_where_id_in vs t) = delete_where_id_in (vs ++ [v]) t.
Proof.
  unfold delete_where_id_in, delete_where_id.
  rewrite filter_twice. apply filter_ext. intros r.
  rewrite existsb_app. simpl. now rewrite orb_false_r, negb_orb.
Qed.

Lemma on_the_way_step (now days_old : Z) (t : Table) (c : Pc * Session) :
  on_the_way now days_old t c -> on_the_way now days_old t (step now days_old c).
Proof.
  destruct c as [pc s]. unfold on_the_way. destruct pc as [| |cur| | |]; simpl.
  - intros ->. reflexivity.
  - intros ->. exists []. split; [reflexivity|]. simpl.
    now rewrite delete_where_id_in_nil.
  - intros (fetched & E & ->). destruct cur as [|v cur]; simpl.
    + rewrite app_nil_r in E. now subst.
    + exists (fetched ++ [v]). split.
      * now rewrite <- app_assoc.
      * unfold DELETE; simpl. now rewrite delete_where_id_in_snoc.
  - auto.
  - intros ->. reflexivity.
  - auto.
Qed.

Lemma on_the_way_run (now days_old : Z) (t : Table) (n : nat) :
  on_the_way now days_old t (run now days_old n (AtStartTransaction, idle t)).
Proof.
  assert (G : forall c, on_the_way now days_old t c ->
                        on_the_way now days_old t (run now days_old n c)).
  { induction n as [|n IH]; intros c H; simpl; [exact H|].
    apply IH. now apply on_the_way_step. }
  apply G. reflexivity.
Qed.

Lemma run_from_fetch (now days_old : Z) (cur : list Z) (s : Session) :
  fst (run now days_old (List.length cur + 3) (AtFetch cur, s)) = Returned.
Proof.
  revert s. induction cur as [|v cur IH]; intros s; simpl; [reflexivity|].
  apply IH.
Qed.

(** C9. A call on a connection with no transaction open commits nothing
    before its COMMIT: cut short at any earlier statement, the committed
    table is the one the call found; every DELETE of the loop runs inside
    the transaction that line 17 opened; the call does return, and what
    it commits then is the table without any row the cursor selected, so
    no stale row is left after a completed run. *)
Theorem sp_cleanup_all_or_nothing (days_old now : Z) (t : Table) :
  (forall n,
     let c := run now days_old n (AtStartTransaction, idle t) in
     (fst c <> Returned -> abort (snd c) = t)
     /\ (forall cur, fst c = AtFetch cur -> working (snd c) <> None)
     /\ (fst c = Returned -> snd c = sp_cleanup_old_alarms days_old now (idle t)))
  /\ fst (run now days_old (List.length (cur_select now days_old t) + 5)
           (AtStartTransaction, idle t)) = Returned
  /\ (forall r, In r (committed (sp_cleanup_old_alarms days_old now (idle t))) ->
                ~ stale now days_old r).
Proof.
  split; [|split].
  - intros n. cbv zeta.
    pose proof (on_the_way_run now days_old t n) as H.
    destruct (run now days_old n (AtStartTransaction, idle t)) as [pc s].
    unfold on_the_way in H. simpl in *.
    rewrite sp_cleanup_old_alarms_eq. simpl.
    destruct pc; simpl in *;
      repeat match goal with
             | H : exists _, _ |- _ => destruct H as (? & ? & ?)
             end; subst; simpl;
      (split; [|split]); intros; try congruence; try reflexivity.
  - replace (List.length (cur_select now days_old t) + 5)%nat
      with (S (S (List.length (cur_select now days_old t) + 3))) by lia.
    simpl. apply run_from_fetch.
  - intros r Hr. apply cur_where_not_stale.
    rewrite sp_cleanup_old_alarms_eq in Hr. simpl in Hr.
    pose proof (nothing_selected_after now days_old t) as N.
    unfold cur_select in N at 1. apply map_eq_nil in N.
    destruct (cur_where now days_old r) eqn:W; [|reflexivity].
    assert (In r []) as []. rewrite <- N. apply filter_In. auto.
Qed.

Example ex_cut_short :
  run ex_now 30 3 (AtStartTransaction, idle ex_table)
  = (AtFetch [2],
     mkSession ex_table
       (Some [ mkRow 2 "EUR/USD" "b@example.com" failed (5 * DAY);
               mkRow 3 "AAPL" "c@example.com" pending (1 * DAY);
               mkRow 4 "ETH-USD" "d@example.com" triggered (39 * DAY) ])).
Proof. reflexivity. Qed.

Lemma sp_cleanup_all_or_nothing_witness :
  fst (run ex_now 30 3 (AtStartTransaction, idle ex_table)) <> Returned
  /\ abort (snd (run ex_now 30 3 (AtStartTransaction, idle ex_table))) = ex_table
  /\ snd (run ex_now 30 7 (AtStartTransaction, idle ex_table))
     = sp_cleanup_old_alarms 30 ex_now (idle ex_table).
Proof.
  split; [discriminate|]. split.
  - apply (proj1 (proj1 (sp_cleanup_all_or_nothing 30 ex_now ex_table) 3%nat)).
    discriminate.
  - apply (proj2 (proj2 (proj1 (sp_cleanup_all_or_nothing 30 ex_now ex_table) 7%nat))).
    reflexivity.
Defined.

End SweeperFacts.

(* ===================================================================== *)
(** * Properties of the RSI                                              *)
(* ===================================================================== *)

Module IndicatorFacts.

Import Indicator.
Local Open Scope Q_scope.

Example RSI_no_losses : RSI [1; 2; 3] 2 = Value 100.
Proof. reflexivity. Qed.

Example RSI_mixed :
  exists x, RSI [10; 12; 11; 13] 3 = Value x /\ x == 80.
Proof. eexists. split; reflexivity. Qed.

Example RSI_too_short : RSI [10; 12; 11] 3 = InsufficientData.
Proof. reflexivity. Qed.

Lemma gain_nonneg (d : Q) : 0 <= gain d.
Proof.
  unfold gain. destruct (Qle_bool 0 d) eqn:E; [|lra].
  now apply Qle_bool_iff.
Qed.

Lemma loss_nonneg (d : Q) : 0 <= loss d.
Proof.
  unfold loss. destruct (Qle_bool d 0) eqn:E; [|lra].
  apply Qle_bool_iff in E. lra.
Qed.

Lemma loss_of_gain (d : Q) : 0 <= d -> loss d == 0.
Proof.
  intros H. unfold loss. destruct (Qle_bool d 0) eqn:E; [|reflexivity].
  apply Qle_bool_iff in E. lra.
Qed.

Lemma Qsum_nonneg (l : list Q) : Forall (fun x => 0 <= x) l -> 0 <= Qsum l.
Proof.
  induction 1 as [|x l Hx _ IH]; simpl; lra.
Qed.

Lemma Qsum_zero (l : list Q) : Forall (fun x => x == 0) l -> Qsum l == 0.
Proof.
  induction 1 as [|x l Hx _ IH]; simpl; lra.
Qed.

Lemma average_nonneg (l : list Q) (period : nat) :
  Forall (fun x => 0 <= x) l -> 0 <= average l period.
Proof.
  intros H. unfold average, Qdiv. apply Qmult_le_0_compat.
  - now apply Qsum_nonneg.
  - apply Qinv_le_0_compat. change 0 with (inject_Z 0).
    rewrite <- Zle_Qle. lia.
Qed.

Lemma average_zero (l : list Q) (period : nat) :
  Forall (fun x => x == 0) l -> average l period == 0.
Proof.
  intros H. unfold average, Qdiv. rewrite (Qsum_zero l H). ring.
Qed.

Lemma Forall_last_n {A : Type} (P : A -> Prop) (n : nat) (l : list A) :
  Forall P l -> Forall P (last_n n l).
Proof.
  unfold last_n. intros H. rewrite List.Forall_forall in *.
  intros x Hx. apply H.
  rewrite <- (firstn_skipn (List.length l - n) l). apply in_or_app. now right.
Qed.

(** The oscillator formula stays between 0 and 100 for averages that are
    not negative, the second of them not zero. *)
Lemma oscillator_range (g l : Q) :
  0 <= g -> 0 <= l -> ~ l == 0 ->
  0 <= 100 - 100 / (1 + g / l) <= 100.
Proof.
  intros Hg Hl Hnz.
  assert (Hpos : 0 < l) by (apply Qle_lteq in Hl; destruct Hl as [Hl|Hl]; [exact Hl|symmetry in Hl; contradiction]).
  assert (HRS : 0 <= g / l) by (apply Qle_shift_div_l; [exact Hpos|lra]).
  assert (H1 : 0 < 1 + g / l) by lra.
  assert (Hup : 100 / (1 + g / l) <= 100) by (apply Qle_shift_div_r; [exact H1|nra]).
  assert (Hlo : 0 <= 100 / (1 + g / l)) by (apply Qle_shift_div_l; [exact H1|lra]).
  lra.
Qed.

(** C4. On a series of at least [period + 1] samples the RSI is a value
    between 0 and 100; on one that also never falls (no delta is a loss,
    so the average loss is zero) it is exactly 100; on a series of fewer
    than [period + 1] samples the result is [InsufficientData]. *)
Theorem RSI_bounds (series : list Q) (period : nat) :
  ((period + 1 <= List.length series)%nat ->
     exists x, RSI series period = Value x /\ 0 <= x <= 100)
  /\ ((period + 1 <= List.length series)%nat -> all_gains series ->
     RSI series period = Value 100)
  /\ ((List.length series < period + 1)%nat ->
     RSI series period = InsufficientData).
Proof.
  unfold RSI. split; [|split].
  - intros L. destruct (Nat.ltb_spec (List.length series) (period + 1)); [lia|].
    destruct (Qeq_bool _ 0) eqn:Z.
    + exists 100. split; [reflexivity|lra].
    + eexists. split; [reflexivity|].
      apply oscillator_range.
      * apply average_nonneg. apply List.Forall_forall. intros x Hx.
        apply in_map_iff in Hx. destruct Hx as (d & <- & _). apply gain_nonneg.
      * apply average_nonneg. apply List.Forall_forall. intros x Hx.
        apply in_map_iff in Hx. destruct Hx as (d & <- & _). apply loss_nonneg.
      * now apply Qeq_bool_neq.
  - intros L G. destruct (Nat.ltb_spec (List.length series) (period + 1)); [lia|].
    destruct (Qeq_bool _ 0) eqn:Z; [reflexivity|].
    apply Qeq_bool_neq in Z. exfalso. apply Z. apply average_zero.
    apply List.Forall_forall. intros x Hx.
    apply in_map_iff in Hx. destruct Hx as (d & <- & Hd).
    apply loss_of_gain.
    pose proof (Forall_last_n _ period _ G) as G'.
    rewrite List.Forall_forall in G'. now apply G'.
  - intros L. destruct (Nat.ltb_spec (List.length series) (period + 1)); [reflexivity|lia].
Qed.

Lemma RSI_bounds_witness :
  (exists x, RSI [10; 12; 11; 13] 3 = Value x /\ 0 <= x <= 100)
  /\ RSI [1; 2; 3] 2 = Value 100
  /\ RSI [10; 12; 11] 3 = InsufficientData.
Proof.
  split; [|split].
  - apply (proj1 (RSI_bounds [10; 12; 11; 13] 3)). simpl. lia.
  - apply (proj1 (proj2 (RSI_bounds [1; 2; 3] 2))).
    + simpl. lia.
    + unfold all_gains. simpl. repeat constructor; discriminate.
  - apply (proj2 (proj2 (RSI_bounds [10; 12; 11] 3))). simpl. lia.
Defined.

End IndicatorFacts.

(* ===================================================================== *)
(** * Properties of the submit handlers                                  *)
(* ===================================================================== *)

Module FormFacts.

Import Api HookForm Samples.
Local Open Scope string_scope.

Lemma Qlt_bool_iff (a b : Q) : JS.Qlt_bool a b = true <-> (a < b)%Q.
Proof.
  unfold JS.Qlt_bool. rewrite negb_true_iff.
  split.
  - intros H. apply Qnot_le_lt. intros L. apply Qle_bool_iff in L. congruence.
  - intros H. destruct (Qle_bool b a) eqn:E; [|reflexivity].
    apply Qle_bool_iff in E. exfalso. now apply (Qlt_not_le a b).
Qed.

(** The test [isNaN(x) || x < lo || x > hi] fails exactly on the numbers
    from [lo] to [hi]. *)
Lemma range_test (lo hi : Z) (x : JS.number) :
  JS.isNaN x || JS.lt x (JS.of_Z lo) || JS.gt x (JS.of_Z hi) = false
  <-> JS.within lo hi x.
Proof.
  unfold JS.within, JS.gt, JS.of_Z. destruct x as [| | |q]; simpl.
  - split; [discriminate|]. intros (q & E & _); discriminate.
  - split; [discriminate|]. intros (q & E & _); discriminate.
  - split; [discriminate|]. intros (q & E & _); discriminate.
  - rewrite orb_false_iff.
    split.
    + intros [L G]. exists q. split; [reflexivity|]. split.
      * apply Qnot_lt_le. intros C. apply Qlt_bool_iff in C. congruence.
      * apply Qnot_lt_le. intros C. apply Qlt_bool_iff in C. congruence.
    + intros (q' & E & L & G). injection E as <-. split.
      * destruct (JS.Qlt_bool q (inject_Z lo)) eqn:C; [|reflexivity].
        apply Qlt_bool_iff in C. exfalso. now apply (Qlt_not_le q (inject_Z lo)).
      * destruct (JS.Qlt_bool (inject_Z hi) q) eqn:C; [|reflexivity].
        apply Qlt_bool_iff in C. exfalso. now apply (Qlt_not_le (inject_Z hi) q).
Qed.

(** The test [isNaN(x) || x <= lo || x > hi] fails exactly on the numbers
    above [lo] up to [hi]. *)
Lemma open_range_test (lo hi : Z) (x : JS.number) :
  JS.isNaN x || JS.le x (JS.of_Z lo) || JS.gt x (JS.of_Z hi) = false
  <-> JS.above_upto lo hi x.
Proof.
  unfold JS.above_upto, JS.gt, JS.of_Z. destruct x as [| | |q]; simpl.
  - split; [discriminate|]. intros (q & E & _); discriminate.
  - split; [discriminate|]. intros (q & E & _); discriminate.
  - split; [discriminate|]. intros (q & E & _); discriminate.
  - rewrite orb_false_iff.
    split.
    + intros [L G]. exists q. split; [reflexivity|]. split.
      * apply Qnot_le_lt. intros C. apply Qle_bool_iff in C. congruence.
      * apply Qnot_lt_le. intros C. apply Qlt_bool_iff in C. congruence.
    + intros (q' & E & L & G). injection E as <-. split.
      * destruct (Qle_bool q (inject_Z lo)) eqn:C; [|reflexivity].
        apply Qle_bool_iff in C. exfalso. now apply (Qlt_not_le (inject_Z lo) q).
      * destruct (JS.Qlt_bool (inject_Z hi) q) eqn:C; [|reflexivity].
        apply Qlt_bool_iff in C. exfalso. now apply (Qlt_not_le (inject_Z hi) q).
Qed.

(** The test [isNaN(x) || x <= 0] fails exactly on the numbers greater
    than 0. *)
Lemma positive_test (x : JS.number) :
  JS.isNaN x || JS.le x (JS.of_Z 0) = false <-> JS.positive x.
Proof.
  unfold JS.of_Z. destruct x as [| | |q]; simpl; try (split; [discriminate|tauto]).
  - tauto.
  - split.
    + intros C. apply Qnot_le_lt. intros L. apply Qle_bool_iff in L.
      change (inject_Z 0) with 0%Q in C. congruence.
    + intros H. destruct (Qle_bool q (inject_Z 0)) eqn:C; [|reflexivity].
      apply Qle_bool_iff in C. exfalso. now apply (Qlt_not_le 0 q).
Qed.

Example rsi_period_101 :
  AlarmForm001.onSubmit
    (ex_form rsi {| target_price := None; period := Some (num 101);
                    threshold := Some (num 30); std_dev := None; direction := None |})
  = Throws "Invalid RSI period".
Proof. reflexivity. Qed.

Example rsi_no_threshold :
  AlarmForm001.onSubmit
    (ex_form rsi {| target_price := None; period := Some (num 14);
                    threshold := None; std_dev := None; direction := None |})
  = Throws "Invalid RSI threshold".
Proof. reflexivity. Qed.

Example price_zero : AlarmForm001.onSubmit (ex_price 0 None) = Throws "Invalid price value".
Proof. reflexivity. Qed.

Ltac within_by_computation :=
  eexists; split; [reflexivity|]; split; unfold Qle, Qlt; simpl; lia.

(** C7. For an rsi alarm the later handler reaches the request if and only
    if the period is a number from 1 to 100 and the threshold is a number
    from 0 to 100; then the payload carries exactly these two parameters;
    otherwise it throws a validation message and no payload is built. *)
Theorem rsi_submit_iff (formData : AlarmData) :
  alarm_type formData = Some rsi ->
  let p := JS.Number (opt_chain (params formData) period) in
  let th := JS.Number (opt_chain (params formData) threshold) in
  ((exists payload, AlarmForm001.onSubmit formData = CallsCreateAlarm payload)
     <-> JS.within 1 100 p /\ JS.within 0 100 th)
  /\ (JS.within 1 100 p /\ JS.within 0 100 th ->
      AlarmForm001.onSubmit formData
      = CallsCreateAlarm
          (with_params formData
             {| target_price := None; period := Some p; threshold := Some th;
                std_dev := None; direction := None |}))
  /\ (~ (JS.within 1 100 p /\ JS.within 0 100 th) ->
      exists message, AlarmForm001.onSubmit formData = Throws message).
Proof.
  intros Ty. cbv zeta.
  unfold AlarmForm001.onSubmit, AlarmForm001.build_params. rewrite Ty. cbv zeta.
  set (p := JS.Number (opt_chain (params formData) period)).
  set (th := JS.Number (opt_chain (params formData) threshold)).
  pose proof (range_test 1 100 p) as Hp.
  pose proof (range_test 0 100 th) as Hth.
  destruct (JS.isNaN p || JS.lt p (JS.of_Z 1) || JS.gt p (JS.of_Z 100)) eqn:Tp.
  - assert (N : ~ JS.within 1 100 p) by (intros W; apply Hp in W; discriminate).
    split; [|split].
    + split; [intros (? & ?); discriminate | tauto].
    + tauto.
    + intros _. eexists. reflexivity.
  - destruct (JS.isNaN th || JS.lt th (JS.of_Z 0) || JS.gt th (JS.of_Z 100)) eqn:Tth.
    + assert (N : ~ JS.within 0 100 th) by (intros W; apply Hth in W; discriminate).
      split; [|split].
      * split; [intros (? & ?); discriminate | tauto].
      * tauto.
      * intros _. eexists. reflexivity.
    + assert (Wp : JS.within 1 100 p) by now apply Hp.
      assert (Wth : JS.within 0 100 th) by now apply Hth.
      split; [|split].
      * split; [tauto | intros _; eexists; reflexivity].
      * reflexivity.
      * tauto.
Qed.

Lemma rsi_submit_iff_witness :
  alarm_type ex_rsi = Some rsi
  /\ AlarmForm001.onSubmit ex_rsi
     = CallsCreateAlarm
         (with_params ex_rsi
            {| target_price := None; period := Some (num 14);
               threshold := Some (num 30); std_dev := None; direction := None |}).
Proof.
  split; [reflexivity|].
  apply (proj1 (proj2 (rsi_submit_iff ex_rsi eq_refl))).
  split; within_by_computation.
Defined.

(** C5, as the code has it. For a bollinger alarm the later handler
    reaches the request if and only if the period is a number from 1 to
    100 and std_dev is a number above 0 and at most 10; then the payload
    carries exactly these two parameters, otherwise it throws a validation
    message. The earlier handler reaches the request whenever both values
    are numbers. *)
Theorem bollinger_submit_iff (formData : AlarmData) :
  alarm_type formData = Some bollinger ->
  let p := JS.Number (opt_chain (params formData) period) in
  let sd := JS.Number (opt_chain (params formData) std_dev) in
  let accepted :=
    CallsCreateAlarm
      (with_params formData
         {| target_price := None; period := Some p; threshold := None;
            std_dev := Some sd; direction := None |}) in
  ((exists payload, AlarmForm001.onSubmit formData = CallsCreateAlarm payload)
     <-> JS.within 1 100 p /\ JS.above_upto 0 10 sd)
  /\ (JS.within 1 100 p /\ JS.above_upto 0 10 sd ->
      AlarmForm001.onSubmit formData = accepted)
  /\ (~ (JS.within 1 100 p /\ JS.above_upto 0 10 sd) ->
      exists message, AlarmForm001.onSubmit formData = Throws message)
  /\ (JS.isNaN p = false /\ JS.isNaN sd = false ->
      AlarmForm.onSubmit formData = accepted).
Proof.
  intros Ty. cbv zeta.
  unfold AlarmForm001.onSubmit, AlarmForm001.build_params,
    AlarmForm.onSubmit, AlarmForm.build_params. rewrite Ty. cbv zeta.
  set (p := JS.Number (opt_chain (params formData) period)).
  set (sd := JS.Number (opt_chain (params formData) std_dev)).
  assert (Old : JS.isNaN p = false /\ JS.isNaN sd = false ->
    match (if JS.isNaN p || JS.isNaN sd
           then inl "Invalid Bollinger parameters"
           else inr {| target_price := None; period := Some p; threshold := None;
                       std_dev := Some sd; direction := None |})
    with
    | inl message => Throws message
    | inr q => CallsCreateAlarm (with_params formData q)
    end
    = CallsCreateAlarm
        (with_params formData
           {| target_price := None; period := Some p; threshold := None;
              std_dev := Some sd; direction := None |})).
  { intros [-> ->]. reflexivity. }
  pose proof (range_test 1 100 p) as Hp.
  pose proof (open_range_test 0 10 sd) as Hsd.
  destruct (JS.isNaN p || JS.lt p (JS.of_Z 1) || JS.gt p (JS.of_Z 100)) eqn:Tp.
  - assert (N : ~ JS.within 1 100 p) by (intros W; apply Hp in W; discriminate).
    split; [|split; [|split]]; [| tauto | | exact Old].
    + split; [intros (? & ?); discriminate | tauto].
    + intros _. eexists. reflexivity.
  - destruct (JS.isNaN sd || JS.le sd (JS.of_Z 0) || JS.gt sd (JS.of_Z 10)) eqn:Tsd.
    + assert (N : ~ JS.above_upto 0 10 sd) by (intros W; apply Hsd in W; discriminate).
      split; [|split; [|split]]; [| tauto | | exact Old].
      * split; [intros (? & ?); discriminate | tauto].
      * intros _. eexists. reflexivity.
    + assert (Wp : JS.within 1 100 p) by now apply Hp.
      assert (Wsd : JS.above_upto 0 10 sd) by now apply Hsd.
      split; [|split; [|split]]; [| reflexivity | tauto | exact Old].
      split; [tauto | intros _; eexists; reflexivity].
Qed.

Lemma bollinger_submit_iff_witness :
  alarm_type (ex_bollinger 20 2) = Some bollinger
  /\ AlarmForm001.onSubmit (ex_bollinger 20 2)
     = CallsCreateAlarm
         (with_params (ex_bollinger 20 2)
            {| target_price := None; period := Some (num 20); threshold := None;
               std_dev := Some (num 2); direction := None |}).
Proof.
  split; [reflexivity|].
  apply (proj1 (proj2 (bollinger_submit_iff (ex_bollinger 20 2) eq_refl))).
  split; within_by_computation.
Defined.

(** C5, as stated, fails: a period of 101 is an integer not below 1 and a
    std_dev of 2 is above 0, yet the later handler throws. So does it on
    period 20 with std_dev 11. *)
Lemma bollinger_period_101_rejected :
  JS.isInteger (num 101) = true
  /\ JS.le (num 1) (num 101) = true
  /\ JS.gt (num 2) (num 0) = true
  /\ AlarmForm001.onSubmit (ex_bollinger 101 2) = Throws "Invalid Bollinger period"
  /\ AlarmForm001.onSubmit (ex_bollinger 20 11) = Throws "Invalid standard deviation".
Proof. repeat split; reflexivity. Qed.

Example price_default_direction :
  AlarmForm001.onSubmit (ex_price 50000 None)
  = CallsCreateAlarm
      (with_params (ex_price 50000 None)
         {| target_price := Some (num 50000); period := None; threshold := None;
            std_dev := None; direction := Some "above" |}).
Proof. reflexivity. Qed.

Example price_below_kept :
  AlarmForm001.onSubmit (ex_price 50000 (Some "below"))
  = CallsCreateAlarm
      (with_params (ex_price 50000 (Some "below"))
         {| target_price := Some (num 50000); period := None; threshold := None;
            std_dev := None; direction := Some "below" |}).
Proof. reflexivity. Qed.

(** C6, as the code has it. For a price alarm the later handler throws on
    every target_price that is not a number greater than 0 and otherwise
    reaches the request with params that carry target_price and
    direction, the direction being 'above' when the form data has none.
    The earlier handler throws on a target_price that is not a number,
    and the params it sends carry target_price and no direction. *)
Theorem price_submit (formData : AlarmData) :
  alarm_type formData = Some price ->
  let tp := JS.Number (opt_chain (params formData) target_price) in
  let dir := opt_chain (params formData) direction in
  (~ JS.positive tp ->
     AlarmForm001.onSubmit formData = Throws "Invalid price value")
  /\ (JS.positive tp ->
      AlarmForm001.onSubmit formData
      = CallsCreateAlarm
          (with_params formData
             {| target_price := Some tp; period := None; threshold := None;
                std_dev := None; direction := Some (or_else dir "above") |}))
  /\ (dir = None -> or_else dir "above" = "above")
  /\ (forall payload,
        AlarmForm001.onSubmit formData = CallsCreateAlarm payload ->
        exists p t d, params payload = Some p
          /\ target_price p = Some t /\ direction p = Some d)
  /\ (JS.isNaN tp = true ->
      AlarmForm.onSubmit formData = Throws "Invalid target price value")
  /\ (forall payload,
        AlarmForm.onSubmit formData = CallsCreateAlarm payload ->
        params payload
        = Some {| target_price := Some tp; period := None; threshold := None;
                  std_dev := None; direction := None |}).
Proof.
  intros Ty. cbv zeta.
  unfold AlarmForm001.onSubmit, AlarmForm001.build_params,
    AlarmForm.onSubmit, AlarmForm.build_params. rewrite Ty. cbv zeta.
  set (tp := JS.Number (opt_chain (params formData) target_price)).
  set (dir := opt_chain (params formData) direction).
  pose proof (positive_test tp) as Hp.
  split; [|split; [|split; [|split; [|split]]]].
  - intros N. destruct (JS.isNaN tp || JS.le tp (JS.of_Z 0)) eqn:T; [reflexivity|].
    exfalso. apply N. now apply Hp.
  - intros P. apply Hp in P. now rewrite P.
  - intros ->. reflexivity.
  - intros payload. destruct (JS.isNaN tp || JS.le tp (JS.of_Z 0)); [discriminate|].
    intros E. injection E as <-. simpl. do 3 eexists. repeat split.
  - intros ->. reflexivity.
  - intros payload. destruct (JS.isNaN tp); [discriminate|].
    intros E. injection E as <-. reflexivity.
Qed.

Lemma price_submit_witness :
  alarm_type (ex_price 50000 None) = Some price
  /\ AlarmForm001.onSubmit (ex_price 50000 None)
     = CallsCreateAlarm
         (with_params (ex_price 50000 None)
            {| target_price := Some (num 50000); period := None; threshold := None;
               std_dev := None; direction := Some "above" |}).
Proof.
  split; [reflexivity|].
  apply (proj1 (proj2 (price_submit (ex_price 50000 None) eq_refl))).
  simpl. unfold Qlt. simpl. lia.
Defined.

(** C6, as stated, fails on the earlier handler: a price alarm without a
    direction is sent with params that carry no direction at all. *)
Lemma price_without_direction_sent :
  opt_chain (params (ex_price 50000 None)) direction = None
  /\ AlarmForm.onSubmit (ex_price 50000 None)
     = CallsCreateAlarm
         (with_params (ex_price 50000 None)
            {| target_price := Some (num 50000); period := None; threshold := None;
               std_dev := None; direction := None |}).
Proof. split; reflexivity. Qed.

(** *** The symbol field *)

Example symbol_crypto :
  AlarmForm001.errors_asset_symbol (ex_form price no_params) = None.
Proof. reflexivity. Qed.

Example symbol_with_blank :
  validateField AlarmForm001.asset_symbol_rules "BTC USD" = Some "Invalid symbol format".
Proof. reflexivity. Qed.

Example symbol_empty :
  validateField AlarmForm001.asset_symbol_rules "" = Some "Asset symbol is required".
Proof. reflexivity. Qed.

Lemma class_is_alphabet (c : ascii) :
  class_matches AlarmForm001.symbol_class c
  = existsb (Ascii.eqb c) (list_ascii_of_string SYMBOL_ALPHABET).
Proof.
  destruct c as [[] [] [] [] [] [] [] []]; vm_compute; reflexivity.
Qed.

Lemma class_matches_symbol_char (c : ascii) :
  class_matches AlarmForm001.symbol_class c = true <-> symbol_char c.
Proof.
  rewrite class_is_alphabet. unfold symbol_char. rewrite existsb_exists.
  split.
  - intros (x & Hx & E). apply Ascii.eqb_eq in E. now subst.
  - intros H. exists c. split; [exact H|apply Ascii.eqb_refl].
Qed.

Lemma every_Forall (p : ascii -> bool) (s : string) :
  every p s = true <-> Forall (fun c => p c = true) (list_ascii_of_string s).
Proof.
  induction s as [|c s IH]; simpl.
  - split; [constructor|reflexivity].
  - rewrite andb_true_iff, IH. split.
    + intros [? ?]. now constructor.
    + intros H. inversion H; subst. auto.
Qed.

(** C8. The later form accepts a symbol if and only if it is not empty and
    consists of letters, digits, hyphens and slashes only; the verdict does
    not depend on the asset class selected. An empty symbol gets the
    message of [required], any other refused symbol that of the pattern. *)
Theorem asset_symbol_accepted_iff (formData : AlarmData) :
  (AlarmForm001.errors_asset_symbol formData = None
     <-> asset_symbol formData <> ""
         /\ Forall symbol_char (list_ascii_of_string (asset_symbol formData)))
  /\ (forall c : option AssetClass,
        AlarmForm001.errors_asset_symbol
          {| asset_class := c; asset_symbol := asset_symbol formData;
             alarm_type := alarm_type formData; params := params formData;
             email := email formData |}
        = AlarmForm001.errors_asset_symbol formData)
  /\ (AlarmForm001.errors_asset_symbol formData = None
      \/ AlarmForm001.errors_asset_symbol formData = Some "Asset symbol is required"
         /\ asset_symbol formData = ""
      \/ AlarmForm001.errors_asset_symbol formData = Some "Invalid symbol format"
         /\ asset_symbol formData <> "").
Proof.
  unfold AlarmForm001.errors_asset_symbol, validateField. simpl.
  destruct (asset_symbol formData) as [|a rest] eqn:E.
  - split; [|split].
    + split; [discriminate | intros [N _]; now elim N].
    + reflexivity.
    + right. left. split; reflexivity.
  - set (s := String a rest).
    assert (A : test_class_plus AlarmForm001.symbol_class s = true
                <-> Forall symbol_char (list_ascii_of_string s)).
    { unfold test_class_plus, s. rewrite every_Forall.
      split; apply List.Forall_impl; intros c; apply class_matches_symbol_char. }
    destruct (test_class_plus AlarmForm001.symbol_class s) eqn:T.
    + split; [|split].
      * split; [intros _; split; [discriminate|now apply A] | reflexivity].
      * reflexivity.
      * now left.
    + split; [|split].
      * split; [discriminate|]. intros [_ F]. apply A in F. discriminate.
      * reflexivity.
      * right. right. split; [reflexivity|discriminate].
Qed.

End FormFacts.

(* ===================================================================== *)
(** * Properties of the asset cache                                      *)
(* ===================================================================== *)

Module CacheFacts.

Import Api.
Local Open Scope string_scope.

Example fresh_hit :
  getCachedAssets offline ex_cache crypto (1000 + 299999)
  = mkCall (Returns ["BTC-USD"; "ETH-USD"]) ex_cache [] [].
Proof. reflexivity. Qed.

Example expired_refetch :
  completion (getCachedAssets (online ["BTC-USD"]) ex_cache crypto (1000 + 300000))
  = Returns ["BTC-USD"]
  /\ requests (getCachedAssets (online ["BTC-USD"]) ex_cache crypto (1000 + 300000))
     = [crypto].
Proof. split; reflexivity. Qed.

Example expired_offline_falls_back :
  completion (getCachedAssets offline ex_cache crypto (1000 + 300000))
  = Returns ["BTC-USD"; "ETH-USD"].
Proof. reflexivity. Qed.

Example never_cached_offline :
  completion (getCachedAssets offline ex_cache forex 5000)
  = Throws (mkAPIError 500 "Failed to fetch").
Proof. reflexivity. Qed.

Lemma session_app (assetCache : gmap string CacheEntry) (a b : list Invocation) :
  session assetCache (a ++ b)%list
  = (session assetCache a ++ session (cache_at assetCache a) b)%list.
Proof.
  revert assetCache. induction a as [|i a IH]; intros assetCache; simpl.
  - reflexivity.
  - now rewrite IH.
Qed.

(** The unfolding of a call, case by case. *)
Lemma getCachedAssets_cases (getAssets : AssetClass -> Settled)
    (assetCache : gmap string CacheEntry) (assetClass : AssetClass) (now : Z) :
  getCachedAssets getAssets assetCache assetClass now
  = match assetCache !! key assetClass, getAssets assetClass with
    | Some c, response =>
        if (now - timestamp c <? CACHE_DURATION_MS)%Z
        then mkCall (Returns (data c)) assetCache [] []
        else match response with
             | Fulfilled assets =>
                 mkCall (Returns assets)
                   (<[key assetClass := mkEntry assets now]> assetCache)
                   [assetClass] [key assetClass]
             | Rejected _ => mkCall (Returns (data c)) assetCache [assetClass] []
             end
    | None, Fulfilled assets =>
        mkCall (Returns assets)
          (<[key assetClass := mkEntry assets now]> assetCache)
          [assetClass] [key assetClass]
    | None, Rejected err => mkCall (Throws err) assetCache [assetClass] []
    end.
Proof.
  unfold getCachedAssets, begin, resume.
  destruct (assetCache !! key assetClass) as [c|] eqn:L.
  - destruct (now - timestamp c <? CACHE_DURATION_MS)%Z; [reflexivity|].
    simpl. destruct (getAssets assetClass); reflexivity.
  - simpl. destruct (getAssets assetClass); reflexivity.
Qed.

(** No call removes an entry. *)
Lemma entry_stays (getAssets : AssetClass -> Settled)
    (assetCache : gmap string CacheEntry) (assetClass : AssetClass) (now : Z)
    (k : string) :
  is_Some (assetCache !! k) ->
  is_Some (cache_after (getCachedAssets getAssets assetCache assetClass now) !! k).
Proof.
  intros H. rewrite getCachedAssets_cases.
  destruct (assetCache !! key assetClass) as [c|];
    [destruct (now - timestamp c <? CACHE_DURATION_MS)%Z|];
    destruct (getAssets assetClass); simpl; try exact H;
    (destruct (decide (key assetClass = k)) as [->|N];
     [rewrite lookup_insert_eq; eauto | now rewrite lookup_insert_ne]).
Qed.

(** A key a call assigns is in the cache afterwards. *)
Lemma written_is_present (getAssets : AssetClass -> Settled)
    (assetCache : gmap string CacheEntry) (assetClass : AssetClass) (now : Z)
    (k : string) :
  In k (writes (getCachedAssets getAssets assetCache assetClass now)) ->
  is_Some (cache_after (getCachedAssets getAssets assetCache assetClass now) !! k).
Proof.
  rewrite getCachedAssets_cases.
  destruct (assetCache !! key assetClass) as [c|];
    [destruct (now - timestamp c <? CACHE_DURATION_MS)%Z|];
    destruct (getAssets assetClass); simpl; try tauto;
    (intros [<-|[]]; rewrite lookup_insert_eq; eauto).
Qed.

Lemma entries_stay (calls : list Invocation) (assetCache : gmap string CacheEntry)
    (k : string) :
  is_Some (assetCache !! k) -> is_Some (cache_at assetCache calls !! k).
Proof.
  revert assetCache. induction calls as [|i calls IH]; intros assetCache H; simpl.
  - exact H.
  - apply IH. now apply entry_stays.
Qed.

(** A key absent after a session was never assigned during it. *)
Lemma absent_never_written (calls : list Invocation)
    (assetCache : gmap string CacheEntry) (k : string) :
  cache_at assetCache calls !! k = None ->
  List.Forall (fun c => ~ In k (writes c)) (session assetCache calls).
Proof.
  revert assetCache. induction calls as [|i calls IH]; intros assetCache H; simpl.
  - constructor.
  - simpl in H. constructor.
    + intros W. apply written_is_present in W.
      apply (entries_stay calls) in W. rewrite H in W. now destruct W.
    + now apply IH.
Qed.

(** C10, as the code has it. (1) With an entry for the class younger than
    5 minutes the call returns the cached list, leaves the cache alone and
    makes no request. (2) When the request fails and an entry for the
    class exists, of whatever age, the call returns the cached list. A
    call suspended at the request resumes with the entry it read at its
    start, whatever the cache is by then: it returns that entry's list
    when the request fails, and throws if and only if the request fails
    and it had read none. (3) A call that runs with nothing in between
    throws if and only if the request fails and the cache holds no entry
    for the class. (4) In a session of calls made one after the other
    from the empty cache, a call throws only if no call before it has
    stored an entry for its class. *)
Theorem getCachedAssets_policy :
  (forall getAssets (assetCache : gmap string CacheEntry) assetClass now c,
     assetCache !! key assetClass = Some c ->
     (now - timestamp c < 5 * 60 * 1000)%Z ->
     getCachedAssets getAssets assetCache assetClass now
     = mkCall (Returns (data c)) assetCache [] [])
  /\ (forall getAssets (assetCache : gmap string CacheEntry) assetClass now c err,
        assetCache !! key assetClass = Some c ->
        getAssets assetClass = Rejected err ->
        completion (getCachedAssets getAssets assetCache assetClass now)
          = Returns (data c)
        /\ cache_after (getCachedAssets getAssets assetCache assetClass now)
           = assetCache)
  /\ (forall (assetCache later : gmap string CacheEntry) assetClass now k,
        begin assetCache assetClass now = Awaits k ->
        s_cached k = assetCache !! key assetClass
        /\ (forall c err, s_cached k = Some c ->
               resume later k (Rejected err) = (later, Returns (data c)))
        /\ (forall response err,
               snd (resume later k response) = Throws err
               <-> response = Rejected err /\ s_cached k = None))
  /\ (forall getAssets (assetCache : gmap string CacheEntry) assetClass now err,
        completion (getCachedAssets getAssets assetCache assetClass now) = Throws err
        <-> getAssets assetClass = Rejected err
            /\ assetCache !! key assetClass = None)
  /\ (forall (before rest : list Invocation) (i : Invocation),
        let c := getCachedAssets (i_getAssets i) (cache_at assetCache_initial before)
                   (i_assetClass i) (i_now i) in
        session assetCache_initial (before ++ i :: rest)%list
          = (session assetCache_initial before ++ c :: session (cache_after c) rest)%list
        /\ forall err, completion c = Throws err ->
             List.Forall (fun earlier => ~ In (key (i_assetClass i)) (writes earlier))
               (session assetCache_initial before)).
Proof.
  split; [|split; [|split; [|split]]].
  - intros getAssets assetCache assetClass now c L F.
    rewrite getCachedAssets_cases, L.
    change CACHE_DURATION_MS with (5 * 60 * 1000)%Z.
    destruct (Z.ltb_spec (now - timestamp c) (5 * 60 * 1000)); [reflexivity|lia].
  - intros getAssets assetCache assetClass now c err L R.
    rewrite getCachedAssets_cases, L, R.
    destruct (now - timestamp c <? CACHE_DURATION_MS)%Z; split; reflexivity.
  - intros assetCache later assetClass now k B.
    assert (S : s_cached k = assetCache !! key assetClass).
    { unfold begin in B. destruct (assetCache !! key assetClass) as [c|];
        [destruct (now - timestamp c <? CACHE_DURATION_MS)%Z; [discriminate|]|];
        injection B as <-; reflexivity. }
    split; [exact S|]. split.
    + intros c err E. unfold resume. now rewrite E.
    + intros response err. unfold resume.
      destruct response as [assets|err']; simpl.
      * split; [discriminate | intros [? _]; discriminate].
      * destruct (s_cached k); simpl; split;
          try discriminate; try (intros [_ ?]; discriminate).
        -- intros E. injection E as <-. auto.
        -- intros [E _]. injection E as <-. reflexivity.
  - intros getAssets assetCache assetClass now err.
    rewrite getCachedAssets_cases.
    destruct (assetCache !! key assetClass) as [c|];
      [destruct (now - timestamp c <? CACHE_DURATION_MS)%Z|];
      destruct (getAssets assetClass) as [assets|err']; simpl;
      (split; [intros E | intros [E E']]); try discriminate; try congruence.
    injection E as <-. auto.
  - intros before rest i. cbv zeta. split.
    + now rewrite session_app.
    + intros err T. apply absent_never_written.
      rewrite getCachedAssets_cases in T.
      destruct (cache_at assetCache_initial before !! key (i_assetClass i)) as [c|];
        [|reflexivity].
      exfalso.
      destruct (i_now i - timestamp c <? CACHE_DURATION_MS)%Z;
        [|destruct (i_getAssets i (i_assetClass i))]; discriminate.
Qed.

Lemma getCachedAssets_policy_witness :
  getCachedAssets offline ex_cache crypto 200000
    = mkCall (Returns ["BTC-USD"; "ETH-USD"]) ex_cache [] []
  /\ completion (getCachedAssets offline ex_cache crypto 900000)
     = Returns ["BTC-USD"; "ETH-USD"].
Proof.
  split.
  - apply (proj1 getCachedAssets_policy offline ex_cache crypto 200000
             (mkEntry ["BTC-USD"; "ETH-USD"] 1000)); [reflexivity|simpl; lia].
  - apply (proj1 (proj2 getCachedAssets_policy) offline ex_cache crypto 900000
             (mkEntry ["BTC-USD"; "ETH-USD"] 1000)
             (mkAPIError 500 "Failed to fetch")); reflexivity.
Defined.

(** C10, as stated, fails for calls that overlap. Two calls for forex
    begin on the empty cache and are suspended at their requests. The
    second call's request is fulfilled and its entry is stored. Then the
    first call's request fails: it throws, although an entry for the
    class has been stored, because it goes by what it read at line 143. *)
Lemma error_propagates_though_entry_stored :
  begin assetCache_initial forex 5000 = Awaits (mkSuspended forex 5000 None)
  /\ begin assetCache_initial forex 6000 = Awaits (mkSuspended forex 6000 None)
  /\ fst (resume assetCache_initial (mkSuspended forex 6000 None)
            (Fulfilled ["EUR/USD"; "GBP/USD"]))
     !! key forex
     = Some (mkEntry ["EUR/USD"; "GBP/USD"] 6000)
  /\ snd (resume
            (fst (resume assetCache_initial (mkSuspended forex 6000 None)
                    (Fulfilled ["EUR/USD"; "GBP/USD"])))
            (mkSuspended forex 5000 None)
            (Rejected (mkAPIError 500 "Failed to fetch")))
     = Throws (mkAPIError 500 "Failed to fetch").
Proof. repeat split; reflexivity. Qed.

End CacheFacts.

(* ===================================================================== *)
(** * More on the sweeper                                                *)
(* ===================================================================== *)

Module SweeperMore.

Import Sweeper SweeperFacts.

(** An id is in the cursor exactly when a selected row of the table has
    it. *)
Lemma in_cursor_iff (now days_old : Z) (t : Table) (v : Z) :
  existsb (Z.eqb v) (cur_select now days_old t) = true
  <-> exists r', In r' t /\ id r' = v /\ cur_where now days_old r' = true.
Proof.
  unfold cur_select. rewrite existsb_exists. split.
  - intros (x & Hx & E). apply Z.eqb_eq in E. subst x.
    apply in_map_iff in Hx. destruct Hx as (r' & E & Hr').
    apply filter_In in Hr'. destruct Hr' as [Hr' W]. eauto.
  - intros (r' & Hr' & E & W). exists v. split; [|apply Z.eqb_refl].
    rewrite <- E. apply in_map. apply filter_In. auto.
Qed.

Lemma cur_where_cutoff (now1 d1 now2 d2 : Z) (r : Row) :
  now1 - d1 * 86400 <= now2 - d2 * 86400 ->
  cur_where now1 d1 r = true -> cur_where now2 d2 r = true.
Proof.
  intros C. unfold cur_where, DATE_SUB, SECONDS_PER_DAY.
  rewrite !andb_true_iff, !Z.ltb_lt. intros [S L]. split; [exact S|lia].
Qed.

(** Two rows with one id: the stale one takes the fresh one with it. *)
Definition ex_shared : Table :=
  [ mkRow 7 "BTC-USD" "a@example.com" failed (1 * DAY);
    mkRow 7 "AAPL" "b@example.com" pending (39 * DAY);
    mkRow 8 "EUR/USD" "c@example.com" pending (1 * DAY) ].

Example ex_shared_cleanup :
  sp_cleanup_old_alarms 30 ex_now (idle ex_shared)
  = idle [ mkRow 8 "EUR/USD" "c@example.com" pending (1 * DAY) ].
Proof. reflexivity. Qed.

(** X1. Whatever the table, with or without a primary key: a row is left
    by the procedure if and only if it was in the table and no stale row
    of the table has its id. So a row that is not stale is deleted all the
    same when it shares its id with a stale one. *)
Theorem sp_cleanup_deletes_by_id (days_old now : Z) (s : Session) (r : Row) :
  In r (view (sp_cleanup_old_alarms days_old now s))
  <-> In r (view s)
      /\ ~ (exists r', In r' (view s) /\ id r' = id r /\ stale now days_old r').
Proof.
  rewrite sp_cleanup_old_alarms_eq. unfold idle, view at 1; simpl.
  unfold delete_where_id_in. rewrite filter_In, negb_true_iff.
  split; intros [Hr N]; split; auto.
  - intros (r' & Hr' & E & St). apply cur_where_stale in St.
    assert (T : existsb (Z.eqb (id r)) (cur_select now days_old (view s)) = true)
      by (apply in_cursor_iff; eauto).
    congruence.
  - destruct (existsb _ _) eqn:T; [|reflexivity].
    exfalso. apply N. apply in_cursor_iff in T. destruct T as (r' & Hr' & E & W).
    exists r'. split; [exact Hr'|]. split; [exact E|]. now apply cur_where_stale.
Qed.

Lemma delete_selected_twice (now1 d1 now2 d2 : Z) (t : Table) :
  now1 - d1 * 86400 <= now2 - d2 * 86400 ->
  let t1 := delete_where_id_in (cur_select now1 d1 t) t in
  delete_where_id_in (cur_select now2 d2 t1) t1
  = delete_where_id_in (cur_select now2 d2 t) t.
Proof.
  intros C. cbv zeta.
  remember (cur_select now2 d2 (delete_where_id_in (cur_select now1 d1 t) t))
    as cur2 eqn:E2.
  unfold delete_where_id_in. rewrite filter_twice.
  apply filter_ext_in. intros r Hr. subst cur2.
  rewrite <- negb_orb. f_equal. apply eq_true_iff_eq.
  rewrite orb_true_iff, !in_cursor_iff. split.
  - intros [(r' & Hr' & E & W)|(r' & Hr' & E & W)].
    + exists r'. split; [exact Hr'|]. split; [exact E|].
      eapply cur_where_cutoff; eauto.
    + unfold delete_where_id_in in Hr'. apply filter_In in Hr'. destruct Hr' as [Hr' _].
      eauto.
  - intros (r' & Hr' & E & W).
    destruct (existsb (Z.eqb (id r)) (cur_select now1 d1 t)) eqn:T.
    + left. now apply in_cursor_iff.
    + right. exists r'. split; [|auto].
      unfold delete_where_id_in. apply filter_In. split; [exact Hr'|].
      rewrite E. now rewrite T.
Qed.

Lemma nothing_selected_earlier (now1 d1 now2 d2 : Z) (t : Table) :
  now1 - d1 * 86400 <= now2 - d2 * 86400 ->
  cur_select now1 d1 (delete_where_id_in (cur_select now2 d2 t) t) = [].
Proof.
  intros C. pose proof (nothing_selected_after now2 d2 t) as N.
  unfold cur_select at 1 in N. apply map_eq_nil in N.
  unfold cur_select at 1. rewrite filter_none; [reflexivity|].
  intros r Hr. destruct (cur_where now1 d1 r) eqn:W; [|reflexivity].
  exfalso. apply (cur_where_cutoff _ _ _ _ _ C) in W.
  assert (In r []) as []. rewrite <- N. apply filter_In. auto.
Qed.

(** X2. Sweeps absorb each other: when the first sweep's cut-off time
    (now minus retention) is not later than the second's, running both,
    in either order, leaves the state the second alone leaves; and what
    the later cut-off keeps, the earlier keeps too. No primary key is
    assumed. *)
Theorem sweeps_absorb (d1 now1 d2 now2 : Z) (s : Session) :
  now1 - d1 * 86400 <= now2 - d2 * 86400 ->
  sp_cleanup_old_alarms d2 now2 (sp_cleanup_old_alarms d1 now1 s)
    = sp_cleanup_old_alarms d2 now2 s
  /\ sp_cleanup_old_alarms d1 now1 (sp_cleanup_old_alarms d2 now2 s)
     = sp_cleanup_old_alarms d2 now2 s
  /\ (forall r, In r (view (sp_cleanup_old_alarms d2 now2 s)) ->
                In r (view (sp_cleanup_old_alarms d1 now1 s))).
Proof.
  intros C. rewrite !sp_cleanup_old_alarms_eq.
  cbn [view idle working committed].
  pose proof (delete_selected_twice now1 d1 now2 d2 (view s) C) as T. cbv zeta in T.
  split; [now rewrite T|]. split.
  - rewrite nothing_selected_earlier by exact C. now rewrite delete_where_id_in_nil.
  - intros r Hr. rewrite <- T in Hr.
    unfold delete_where_id_in at 1 in Hr. apply filter_In in Hr. tauto.
Qed.

Lemma sweeps_absorb_witness :
  40 * DAY - 30 * 86400 <= 45 * DAY - 7 * 86400
  /\ sp_cleanup_old_alarms 7 (45 * DAY) (sp_cleanup_old_alarms 30 (40 * DAY) (idle ex_table))
     = sp_cleanup_old_alarms 7 (45 * DAY) (idle ex_table).
Proof.
  assert (C : 40 * DAY - 30 * 86400 <= 45 * DAY - 7 * 86400) by (unfold DAY; lia).
  split; [exact C|].
  exact (proj1 (sweeps_absorb 30 (40 * DAY) 7 (45 * DAY) (idle ex_table) C)).
Defined.

(** X3. With a primary key every DELETE of the loop removes one row: the
    table shrinks by exactly the number of DELETE statements executed. *)
Theorem rows_removed_count (days_old now : Z) (s : Session) :
  unique_ids (view s) ->
  List.length (view s)
  = (List.length (view (sp_cleanup_old_alarms days_old now s))
     + deletions days_old now s)%nat.
Proof.
  intros U. rewrite sp_cleanup_old_alarms_eq, delete_where_id_in_selected by exact U.
  unfold deletions, cur_select. cbn [view idle working committed START_TRANSACTION].
  rewrite length_map.
  rewrite <- (filter_length (cur_where now days_old) (view s)) at 1. lia.
Qed.

Lemma rows_removed_count_witness :
  unique_ids (view (idle ex_table))
  /\ List.length (view (idle ex_table))
     = (List.length (view (sp_cleanup_old_alarms 30 ex_now (idle ex_table)))
        + deletions 30 ex_now (idle ex_table))%nat.
Proof.
  assert (U : unique_ids (view (idle ex_table))).
  { unfold unique_ids; simpl. repeat constructor; simpl; intuition discriminate. }
  split; [exact U|].
  exact (rows_removed_count 30 ex_now (idle ex_table) U).
Defined.

Lemma run_after_start (now days_old : Z) (n : nat) (s : Session) :
  run now days_old (S n) (AtStartTransaction, s)
  = run now days_old (S n) (AtStartTransaction, idle (view s)).
Proof. reflexivity. Qed.

(** X4. Called on a connection that has a transaction open, line 17 commits
    that transaction first: from then on a call that is cut short leaves
    committed the table as the caller saw it, the caller's own uncommitted
    changes included, and a call that returns has committed the sweep of
    that table. *)
Theorem open_transaction_is_committed (days_old now : Z) (s : Session) (n : nat) :
  let c := run now days_old (S n) (AtStartTransaction, s) in
  (fst c <> Returned -> abort (snd c) = view s)
  /\ (fst c = Returned -> snd c = sp_cleanup_old_alarms days_old now s).
Proof.
  cbv zeta. rewrite run_after_start.
  pose proof (on_the_way_run now days_old (view s) (S n)) as H.
  destruct (run now days_old (S n) (AtStartTransaction, idle (view s))) as [pc s'].
  unfold on_the_way in H. cbn [fst snd] in *.
  rewrite sp_cleanup_old_alarms_eq.
  destruct pc; cbn [abort] in *;
    repeat match goal with
           | H : exists _, _ |- _ => destruct H as (? & ? & ?)
           end; subst; simpl; split; intros; try congruence; try reflexivity.
Qed.

End SweeperMore.

(* ===================================================================== *)
(** * More on the asset cache                                            *)
(* ===================================================================== *)

Module CacheMore.

Import Api ApiMore CacheFacts.
Local Open Scope string_scope.

Lemma key_inj (c c' : AssetClass) : key c = key c' -> c = c'.
Proof. destruct c, c'; simpl; intros E; congruence. Qed.



(** X6. A call touches no entry but the one of its own class, and that one
    only by storing a fulfilled response: the entries of the other classes
    are as before, and a call that stores nothing leaves the whole cache as
    it was. *)
Theorem other_entries_untouched (getAssets : AssetClass -> Settled)
    (assetCache : gmap string CacheEntry) (assetClass : AssetClass) (now : Z) :
  let c := getCachedAssets getAssets assetCache assetClass now in
  (forall other : AssetClass, other <> assetClass ->
     cache_after c !! key other = assetCache !! key other)
  /\ (forall k : string, k <> key assetClass -> cache_after c !! k = assetCache !! k)
  /\ (writes c = [] -> cache_after c = assetCache)
  /\ (forall err, getAssets assetClass = Rejected err -> cache_after c = assetCache).
Proof.
  cbv zeta.
  assert (K : forall k : string, k <> key assetClass ->
    cache_after (getCachedAssets getAssets assetCache assetClass now) !! k
    = assetCache !! k).
  { intros k N. rewrite getCachedAssets_cases.
    destruct (assetCache !! key assetClass) as [c|];
      [destruct (now - timestamp c <? CACHE_DURATION_MS)%Z|];
      destruct (getAssets assetClass); simpl; try reflexivity;
      now rewrite lookup_insert_ne by congruence. }
  split; [|split; [exact K|split]].
  - intros other N. apply K. intros E. apply key_inj in E. congruence.
  - rewrite getCachedAssets_cases.
    destruct (assetCache !! key assetClass) as [c|];
      [destruct (now - timestamp c <? CACHE_DURATION_MS)%Z|];
      destruct (getAssets assetClass); simpl; try reflexivity; discriminate.
  - intros err R. rewrite getCachedAssets_cases, R.
    destruct (assetCache !! key assetClass) as [c|];
      [destruct (now - timestamp c <? CACHE_DURATION_MS)%Z|]; reflexivity.
Qed.

(** Every entry of the cache holds the list of a fulfilled request of the
    session so far, made for the class the entry is filed under. *)
Definition fetched_entries (assetCache : gmap string CacheEntry)
    (done : list Invocation) : Prop :=
  forall k e, assetCache !! k = Some e ->
    exists j, In j done /\ key (i_assetClass j) = k
              /\ i_getAssets j (i_assetClass j) = Fulfilled (data e).

Lemma fetched_entries_step (assetCache : gmap string CacheEntry)
    (done : list Invocation) (i : Invocation) :
  fetched_entries assetCache done ->
  fetched_entries
    (cache_after (getCachedAssets (i_getAssets i) assetCache (i_assetClass i) (i_now i)))
    (done ++ [i])%list.
Proof.
  intros P k e. rewrite getCachedAssets_cases.
  assert (Old : assetCache !! k = Some e ->
    exists j, In j (done ++ [i])%list /\ key (i_assetClass j) = k
              /\ i_getAssets j (i_assetClass j) = Fulfilled (data e)).
  { intros L. destruct (P k e L) as (j & Hj & ?). exists j.
    split; [apply in_or_app; now left|assumption]. }
  assert (New : forall assets,
    i_getAssets i (i_assetClass i) = Fulfilled assets ->
    <[key (i_assetClass i) := mkEntry assets (i_now i)]> assetCache !! k = Some e ->
    exists j, In j (done ++ [i])%list /\ key (i_assetClass j) = k
              /\ i_getAssets j (i_assetClass j) = Fulfilled (data e)).
  { intros assets F L. destruct (decide (key (i_assetClass i) = k)) as [E|N].
    - subst k. rewrite lookup_insert_eq in L. injection L as <-.
      exists i. split; [apply in_or_app; right; now left|]. split; [reflexivity|exact F].
    - rewrite lookup_insert_ne in L by exact N. now apply Old. }
  destruct (assetCache !! key (i_assetClass i)) as [c|];
    [destruct (i_now i - timestamp c <? CACHE_DURATION_MS)%Z|];
    destruct (i_getAssets i (i_assetClass i)) as [assets|err] eqn:F; simpl;
    try exact Old; now apply (New assets).
Qed.

Lemma fetched_entries_session (calls done : list Invocation)
    (assetCache : gmap string CacheEntry) :
  fetched_entries assetCache done ->
  fetched_entries (cache_at assetCache calls) (done ++ calls)%list.
Proof.
  revert done assetCache. induction calls as [|i calls IH]; intros done assetCache P.
  - simpl. now rewrite app_nil_r.
  - simpl. replace (done ++ i :: calls)%list with ((done ++ [i]) ++ calls)%list
      by now rewrite <- app_assoc.
    apply IH. now apply fetched_entries_step.
Qed.

(** X7. Nothing is made up: in a session of calls that starts with the
    empty cache, every list a call returns is the list of a fulfilled
    request for the same class, made by that call or by one before it. *)
Theorem returned_list_was_fetched (before : list Invocation) (i : Invocation)
    (assets : list string) :
  completion (getCachedAssets (i_getAssets i) (cache_at assetCache_initial before)
                (i_assetClass i) (i_now i)) = Returns assets ->
  exists j, In j (before ++ [i])%list
            /\ i_assetClass j = i_assetClass i
            /\ i_getAssets j (i_assetClass i) = Fulfilled assets.
Proof.
  intros R.
  assert (P : fetched_entries (cache_at assetCache_initial before) before).
  { apply (fetched_entries_session before [] assetCache_initial).
    intros k e L. unfold assetCache_initial in L. now rewrite lookup_empty in L. }
  assert (FromCache : forall c,
    cache_at assetCache_initial before !! key (i_assetClass i) = Some c ->
    exists j, In j (before ++ [i])%list /\ i_assetClass j = i_assetClass i
              /\ i_getAssets j (i_assetClass i) = Fulfilled (data c)).
  { intros c L. destruct (P _ _ L) as (j & Hj & K & F).
    apply key_inj in K. exists j.
    split; [apply in_or_app; now left|]. split; [exact K|]. now rewrite <- K. }
  rewrite getCachedAssets_cases in R.
  destruct (cache_at assetCache_initial before !! key (i_assetClass i)) as [c|] eqn:L.
  - destruct (i_now i - timestamp c <? CACHE_DURATION_MS)%Z.
    + injection R as <-. now apply FromCache.
    + destruct (i_getAssets i (i_assetClass i)) as [a|err] eqn:F; injection R as <-.
      * exists i. split; [apply in_or_app; right; now left|]. auto.
      * now apply FromCache.
  - destruct (i_getAssets i (i_assetClass i)) as [a|err] eqn:F; [|discriminate].
    injection R as <-. exists i. split; [apply in_or_app; right; now left|]. auto.
Qed.

Lemma returned_list_was_fetched_witness :
  exists j, In j ([mkInvocation crypto 0 (online ["BTC-USD"])]
                  ++ [mkInvocation crypto 900000 offline])%list
            /\ i_assetClass j = crypto
            /\ i_getAssets j crypto = Fulfilled ["BTC-USD"].
Proof.
  apply (returned_list_was_fetched [mkInvocation crypto 0 (online ["BTC-USD"])]
           (mkInvocation crypto 900000 offline) ["BTC-USD"]).
  reflexivity.
Defined.

(** X8. A call makes one request, for the class asked, or none; it makes
    none exactly when the cache holds an entry for the class whose age is
    below 5 minutes. An entry of exactly 5 minutes is expired. *)
Theorem one_request_unless_fresh (getAssets : AssetClass -> Settled)
    (assetCache : gmap string CacheEntry) (assetClass : AssetClass) (now : Z) :
  let c := getCachedAssets getAssets assetCache assetClass now in
  (requests c = []
   /\ exists e, assetCache !! key assetClass = Some e
                /\ (now - timestamp e < 5 * 60 * 1000)%Z)
  \/ (requests c = [assetClass]
      /\ forall e, assetCache !! key assetClass = Some e ->
                   (5 * 60 * 1000 <= now - timestamp e)%Z).
Proof.
  cbv zeta. rewrite getCachedAssets_cases.
  change CACHE_DURATION_MS with (5 * 60 * 1000)%Z.
  destruct (assetCache !! key assetClass) as [c|].
  - destruct (Z.ltb_spec (now - timestamp c) (5 * 60 * 1000)).
    + left. split; [reflexivity|]. eauto.
    + right. destruct (getAssets assetClass); simpl;
        (split; [reflexivity|]); intros e E; injection E as <-; lia.
  - right. destruct (getAssets assetClass); simpl;
      (split; [reflexivity|]); intros e E; discriminate.
Qed.

(** X9. The type guard accepts exactly the three property names the cache
    and the request paths use: a text is a valid asset class if and only
    if it is the key of a class, and different classes have different
    keys. The comparison is exact, so 'Crypto' is not valid. *)
Theorem isValidAssetClass_iff_key (assetClass : string) :
  (isValidAssetClass assetClass = true <-> exists c, key c = assetClass)
  /\ (forall c c', key c = key c' -> c = c')
  /\ isValidAssetClass "Crypto" = false.
Proof.
  split; [|split; [exact key_inj|reflexivity]].
  unfold isValidAssetClass. rewrite existsb_exists. split.
  - intros (x & Hx & E). apply String.eqb_eq in E. subst x.
    simpl in Hx. destruct Hx as [<-|[<-|[<-|[]]]];
      [exists crypto|exists forex|exists stock]; reflexivity.
  - intros (c & <-). exists (key c). split; [|apply String.eqb_refl].
    destruct c; simpl; auto.
Qed.

(** X19. Calls that overlap. Let two calls for one class both be suspended
    at their request. When both requests are fulfilled, the response that
    arrives last is the one the cache keeps, stamped with the time its own
    call began, be that the earlier of the two. And a call that began when
    the cache had no entry for the class throws when its request fails,
    even if the other call has stored an entry in the meantime. *)
Theorem overlapping_calls (assetCache : gmap string CacheEntry)
    (assetClass : AssetClass) (t1 t2 : Z) (kA kB : Suspended)
    (listA listB : list string) (err : APIError) :
  begin assetCache assetClass t1 = Awaits kA ->
  begin assetCache assetClass t2 = Awaits kB ->
  let afterB := fst (resume assetCache kB (Fulfilled listB)) in
  fst (resume afterB kA (Fulfilled listA)) !! key assetClass
    = Some (mkEntry listA t1)
  /\ afterB !! key assetClass = Some (mkEntry listB t2)
  /\ (assetCache !! key assetClass = None ->
      resume afterB kA (Rejected err) = (afterB, Throws err)).
Proof.
  intros A B. cbv zeta.
  assert (KA : kA = mkSuspended assetClass t1 (assetCache !! key assetClass)).
  { unfold begin in A. destruct (assetCache !! key assetClass) as [c|];
      [destruct (t1 - timestamp c <? CACHE_DURATION_MS)%Z; [discriminate|]|];
      now injection A as <-. }
  assert (KB : kB = mkSuspended assetClass t2 (assetCache !! key assetClass)).
  { unfold begin in B. destruct (assetCache !! key assetClass) as [c|];
      [destruct (t2 - timestamp c <? CACHE_DURATION_MS)%Z; [discriminate|]|];
      now injection B as <-. }
  subst kA kB. unfold resume. cbn [fst s_assetClass s_now s_cached].
  split; [now rewrite lookup_insert_eq|]. split; [now rewrite lookup_insert_eq|].
  intros ->. reflexivity.
Qed.

Lemma overlapping_calls_witness :
  begin ex_cache forex 5000 = Awaits (mkSuspended forex 5000 None)
  /\ begin ex_cache forex 9000 = Awaits (mkSuspended forex 9000 None)
  /\ fst (resume (fst (resume ex_cache (mkSuspended forex 9000 None)
                         (Fulfilled ["EUR/USD"; "GBP/USD"])))
            (mkSuspended forex 5000 None) (Fulfilled ["EUR/USD"]))
     !! key forex
     = Some (mkEntry ["EUR/USD"] 5000).
Proof.
  split; [reflexivity|]. split; [reflexivity|].
  exact (proj1 (overlapping_calls ex_cache forex 5000 9000
                  (mkSuspended forex 5000 None) (mkSuspended forex 9000 None)
                  ["EUR/USD"] ["EUR/USD"; "GBP/USD"] (mkAPIError 500 "Failed to fetch")
                  eq_refl eq_refl)).
Defined.

End CacheMore.

(* ===================================================================== *)
(** * Properties of the fetch helper                                     *)
(* ===================================================================== *)

Module FetchFacts.

Import Fetch.
Local Open Scope string_scope.

Definition V8_MESSAGE : string := "Cannot read properties of null (reading 'detail')".

(** The text of the numbers that occur in the examples: none but 0. *)
Definition ex_number_text (n : JS.number) : string :=
  match n with
  | JS.NaN => "NaN"
  | JS.PosInfinity => "Infinity"
  | JS.NegInfinity => "-Infinity"
  | JS.Finite _ => "0"
  end.

Example http_404_with_detail :
  fetchWithError ex_number_text V8_MESSAGE
    (Responds (mkResponse false 404 "Not Found"
                 (inl (JObj [("detail", JStr "Alarm not found")]))))
  = RejectsAPIError
      (mkAPIErrorObject 404 "Alarm not found"
         (DetailsBody (JObj [("detail", JStr "Alarm not found")]))).
Proof. reflexivity. Qed.

Example http_422_detail_list :
  fetchWithError ex_number_text V8_MESSAGE
    (Responds (mkResponse false 422 "Unprocessable Entity"
                 (inl (JObj [("detail",
                              JArr [JObj [("msg", JStr "field required")];
                                    JObj [("msg", JStr "value is not a valid email")]])]))))
  = RejectsAPIError
      (mkAPIErrorObject 422 "[object Object],[object Object]"
         (DetailsBody
            (JObj [("detail",
                    JArr [JObj [("msg", JStr "field required")];
                          JObj [("msg", JStr "value is not a valid email")]])]))).
Proof. reflexivity. Qed.

Example http_400_empty_detail_list :
  fetchWithError ex_number_text V8_MESSAGE
    (Responds (mkResponse false 400 "Bad Request" (inl (JObj [("detail", JArr [])]))))
  = RejectsAPIError
      (mkAPIErrorObject 400 "" (DetailsBody (JObj [("detail", JArr [])]))).
Proof. reflexivity. Qed.

Example http_502_html_body :
  fetchWithError ex_number_text V8_MESSAGE
    (Responds (mkResponse false 502 "" (inr (ErrorObject "Unexpected token <"))))
  = RejectsAPIError
      (mkAPIErrorObject 502 "API error" (DetailsBody (JObj [("detail", JStr "")]))).
Proof. reflexivity. Qed.

Example http_500_null_body :
  fetchWithError ex_number_text V8_MESSAGE
    (Responds (mkResponse false 503 "Unavailable" (inl JNull)))
  = RejectsAPIError
      (mkAPIErrorObject 500 V8_MESSAGE (DetailsCaught (ErrorObject V8_MESSAGE))).
Proof. reflexivity. Qed.

Example text_of_nested_list :
  text_of ex_number_text (JArr [JStr "a"; JNull; JArr [JBool true; JStr "b"]; JObj []])
  = "a,,true,b,[object Object]".
Proof. reflexivity. Qed.













(** X12. The helper resolves exactly when the response is ok and its body
    parses, with the parsed body. When the request itself fails it rejects
    with an [APIError] of status 500 that carries the failure's message,
    or 'Unknown error' for a failure that is no [Error]. The one
    rejection that is not an [APIError] is that of an ok response whose
    body does not parse: it passes through as it is. *)
Theorem fetch_settles (number_text : JS.number -> string)
    (type_error_message : string) (o : FetchOutcome) :
  (forall v, fetchWithError number_text type_error_message o = Resolves v
             <-> exists res, o = Responds res /\ ok res = true /\ json res = inl v)
  /\ (forall err, fetchWithError number_text type_error_message o = Rejects err
                  <-> exists res, o = Responds res /\ ok res = true /\ json res = inr err)
  /\ (forall m, o = FetchRejects (ErrorObject m) ->
        fetchWithError number_text type_error_message o
        = RejectsAPIError
            (mkAPIErrorObject 500 m (DetailsCaught (ErrorObject m))))
  /\ (o = FetchRejects NotAnError ->
        fetchWithError number_text type_error_message o
        = RejectsAPIError
            (mkAPIErrorObject 500 "Unknown error" (DetailsCaught NotAnError))).
Proof.
  split; [|split; [|split]].
  - intros v. unfold fetchWithError. destruct o as [res|err].
    + destruct (ok res) eqn:Ok; simpl.
      * destruct (json res) as [w|e] eqn:J; split.
        -- intros E. injection E as <-. exists res. auto.
        -- intros (res' & E & _ & J'). injection E as <-. congruence.
        -- discriminate.
        -- intros (res' & E & _ & J'). injection E as <-. congruence.
      * split.
        -- destruct (json res) as [w|e]; simpl;
             [destruct (get_detail w)|]; unfold wrap; discriminate.
        -- intros (res' & E & Ok' & _). injection E as <-. congruence.
    + split; [unfold wrap; discriminate|]. intros (res & E & _). discriminate.
  - intros err. unfold fetchWithError. destruct o as [res|err'].
    + destruct (ok res) eqn:Ok; simpl.
      * destruct (json res) as [w|e] eqn:J; split.
        -- discriminate.
        -- intros (res' & E & _ & J'). injection E as <-. congruence.
        -- intros E. injection E as <-. exists res. auto.
        -- intros (res' & E & _ & J'). injection E as <-. congruence.
      * split.
        -- destruct (json res) as [w|e]; simpl;
             [destruct (get_detail w)|]; unfold wrap; discriminate.
        -- intros (res' & E & Ok' & _). injection E as <-. congruence.
    + split; [unfold wrap; discriminate|]. intros (res & E & _). discriminate.
  - intros m ->. reflexivity.
  - intros ->. reflexivity.
Qed.

End FetchFacts.

(* ===================================================================== *)
(** * More on the submit handlers                                        *)
(* ===================================================================== *)

Module SubmitFacts.

Import Api HookForm Fetch Submit Samples.
Local Open Scope string_scope.

Lemma or_else_twice (v : option string) (d : string) :
  d <> "" -> or_else (Some (or_else v d)) d = or_else v d.
Proof.
  intros N. destruct v as [[|a s]|]; simpl; destruct d; congruence.
Qed.

Lemma with_params_twice (formData : AlarmData) (p q : AlarmParams) :
  with_params (with_params formData p) q = with_params formData q.
Proof. reflexivity. Qed.

(** X13. What a handler sends is in normal form: a payload that either
    handler has built is accepted by that handler again, unchanged. *)
Theorem accepted_payload_is_fixed (formData payload : AlarmData) :
  (AlarmForm001.onSubmit formData = CallsCreateAlarm payload ->
   AlarmForm001.onSubmit payload = CallsCreateAlarm payload)
  /\ (AlarmForm.onSubmit formData = CallsCreateAlarm payload ->
      AlarmForm.onSubmit payload = CallsCreateAlarm payload).
Proof.
  split.
  - unfold AlarmForm001.onSubmit, AlarmForm001.build_params.
    destruct (alarm_type formData) as [[| |]|] eqn:Ty; cbv zeta.
    + set (tp := JS.Number (opt_chain (params formData) target_price)).
      set (dir := opt_chain (params formData) direction).
      destruct (JS.isNaN tp || JS.le tp (JS.of_Z 0)) eqn:T; [discriminate|].
      intros E. injection E as <-. cbn [alarm_type with_params params opt_chain
        target_price direction JS.Number]. rewrite Ty, T.
      rewrite or_else_twice by discriminate. reflexivity.
    + set (p := JS.Number (opt_chain (params formData) period)).
      set (th := JS.Number (opt_chain (params formData) threshold)).
      destruct (JS.isNaN p || JS.lt p (JS.of_Z 1) || JS.gt p (JS.of_Z 100)) eqn:T1;
        [discriminate|].
      destruct (JS.isNaN th || JS.lt th (JS.of_Z 0) || JS.gt th (JS.of_Z 100)) eqn:T2;
        [discriminate|].
      intros E. injection E as <-. cbn [alarm_type with_params params opt_chain
        period threshold JS.Number]. rewrite Ty, T1, T2. reflexivity.
    + set (p := JS.Number (opt_chain (params formData) period)).
      set (sd := JS.Number (opt_chain (params formData) std_dev)).
      destruct (JS.isNaN p || JS.lt p (JS.of_Z 1) || JS.gt p (JS.of_Z 100)) eqn:T1;
        [discriminate|].
      destruct (JS.isNaN sd || JS.le sd (JS.of_Z 0) || JS.gt sd (JS.of_Z 10)) eqn:T2;
        [discriminate|].
      intros E. injection E as <-. cbn [alarm_type with_params params opt_chain
        period std_dev JS.Number]. rewrite Ty, T1, T2. reflexivity.
    + intros E. injection E as <-. cbn [alarm_type with_params]. rewrite Ty. reflexivity.
  - unfold AlarmForm.onSubmit, AlarmForm.build_params.
    destruct (alarm_type formData) as [[| |]|] eqn:Ty; cbv zeta.
    + set (tp := JS.Number (opt_chain (params formData) target_price)).
      destruct (JS.isNaN tp) eqn:T; [discriminate|].
      intros E. injection E as <-. cbn [alarm_type with_params params opt_chain
        target_price JS.Number]. rewrite Ty, T. reflexivity.
    + set (p := JS.Number (opt_chain (params formData) period)).
      set (th := JS.Number (opt_chain (params formData) threshold)).
      destruct (JS.isNaN p || JS.isNaN th) eqn:T; [discriminate|].
      intros E. injection E as <-. cbn [alarm_type with_params params opt_chain
        period threshold JS.Number]. rewrite Ty, T. reflexivity.
    + set (p := JS.Number (opt_chain (params formData) period)).
      set (sd := JS.Number (opt_chain (params formData) std_dev)).
      destruct (JS.isNaN p || JS.isNaN sd) eqn:T; [discriminate|].
      intros E. injection E as <-. cbn [alarm_type with_params params opt_chain
        period std_dev JS.Number]. rewrite Ty, T. reflexivity.
    + intros E. injection E as <-. cbn [alarm_type with_params]. rewrite Ty. reflexivity.
Qed.

Lemma accepted_payload_is_fixed_witness :
  AlarmForm001.onSubmit
    (with_params (ex_price 50000 None)
       {| target_price := Some (num 50000); period := None; threshold := None;
          std_dev := None; direction := Some "above" |})
  = CallsCreateAlarm
      (with_params (ex_price 50000 None)
         {| target_price := Some (num 50000); period := None; threshold := None;
            std_dev := None; direction := Some "above" |}).
Proof.
  apply (proj1 (accepted_payload_is_fixed (ex_price 50000 None) _)).
  reflexivity.
Defined.

(** X14. Only the fields of the selected alarm type count, and only they
    are sent. Either handler gives the same outcome when the params of the
    form data are cut down to the fields of the alarm type (target_price
    and direction; period and threshold; period and std_dev), so values
    left over from another alarm type change nothing; and the params of a
    payload hold no field outside those of the alarm type. *)
Theorem only_active_fields_count (formData : AlarmData) :
  let cut := with_params formData
               (active_fields (alarm_type formData) (params formData)) in
  AlarmForm001.onSubmit cut = AlarmForm001.onSubmit formData
  /\ AlarmForm.onSubmit cut = AlarmForm.onSubmit formData
  /\ (forall payload,
        AlarmForm001.onSubmit formData = CallsCreateAlarm payload
        \/ AlarmForm.onSubmit formData = CallsCreateAlarm payload ->
        exists p, params payload = Some p
                  /\ active_fields (alarm_type formData) (Some p) = p).
Proof.
  cbv zeta.
  unfold AlarmForm001.onSubmit, AlarmForm001.build_params,
    AlarmForm.onSubmit, AlarmForm.build_params, active_fields.
  cbn [alarm_type with_params params].
  destruct (alarm_type formData) as [[| |]|] eqn:Ty; cbv zeta;
    cbn [opt_chain target_price period threshold std_dev direction].
  - split; [reflexivity|]. split; [reflexivity|].
    intros payload [E|E].
    + destruct (_ || _) in E; [discriminate|]. injection E as <-.
      eexists. split; reflexivity.
    + destruct (JS.isNaN _) in E; [discriminate|]. injection E as <-.
      eexists. split; reflexivity.
  - split; [reflexivity|]. split; [reflexivity|].
    intros payload [E|E].
    + destruct (_ || _) in E; [discriminate|].
      destruct (_ || _) in E; [discriminate|]. injection E as <-.
      eexists. split; reflexivity.
    + destruct (_ || _) in E; [discriminate|]. injection E as <-.
      eexists. split; reflexivity.
  - split; [reflexivity|]. split; [reflexivity|].
    intros payload [E|E].
    + destruct (_ || _) in E; [discriminate|].
      destruct (_ || _) in E; [discriminate|]. injection E as <-.
      eexists. split; reflexivity.
    + destruct (_ || _) in E; [discriminate|]. injection E as <-.
      eexists. split; reflexivity.
  - split; [reflexivity|]. split; [reflexivity|].
    intros payload [E|E]; injection E as <-; eexists; split; reflexivity.
Qed.

(** X15. The later handler is the stricter one: whatever it sends the
    earlier handler sends too, with the same params except for the
    direction, which the earlier one leaves out. *)
Theorem later_handler_is_stricter (formData payload : AlarmData) :
  AlarmForm001.onSubmit formData = CallsCreateAlarm payload ->
  exists p,
    params payload = Some p
    /\ AlarmForm.onSubmit formData
       = CallsCreateAlarm
           (with_params formData
              {| target_price := target_price p; period := period p;
                 threshold := threshold p; std_dev := std_dev p;
                 direction := None |}).
Proof.
  unfold AlarmForm001.onSubmit, AlarmForm001.build_params,
    AlarmForm.onSubmit, AlarmForm.build_params.
  destruct (alarm_type formData) as [[| |]|] eqn:Ty; cbv zeta.
  - set (tp := JS.Number (opt_chain (params formData) target_price)).
    destruct (JS.isNaN tp || JS.le tp (JS.of_Z 0)) eqn:T; [discriminate|].
    apply orb_false_elim in T. destruct T as [T _]. rewrite T.
    intros E. injection E as <-. eexists. split; reflexivity.
  - set (p := JS.Number (opt_chain (params formData) period)).
    set (th := JS.Number (opt_chain (params formData) threshold)).
    destruct (JS.isNaN p || JS.lt p (JS.of_Z 1) || JS.gt p (JS.of_Z 100)) eqn:T1;
      [discriminate|].
    destruct (JS.isNaN th || JS.lt th (JS.of_Z 0) || JS.gt th (JS.of_Z 100)) eqn:T2;
      [discriminate|].
    apply orb_false_elim in T1. destruct T1 as [T1 _].
    apply orb_false_elim in T1. destruct T1 as [T1 _].
    apply orb_false_elim in T2. destruct T2 as [T2 _].
    apply orb_false_elim in T2. destruct T2 as [T2 _].
    rewrite T1, T2. intros E. injection E as <-. eexists. split; reflexivity.
  - set (p := JS.Number (opt_chain (params formData) period)).
    set (sd := JS.Number (opt_chain (params formData) std_dev)).
    destruct (JS.isNaN p || JS.lt p (JS.of_Z 1) || JS.gt p (JS.of_Z 100)) eqn:T1;
      [discriminate|].
    destruct (JS.isNaN sd || JS.le sd (JS.of_Z 0) || JS.gt sd (JS.of_Z 10)) eqn:T2;
      [discriminate|].
    apply orb_false_elim in T1. destruct T1 as [T1 _].
    apply orb_false_elim in T1. destruct T1 as [T1 _].
    apply orb_false_elim in T2. destruct T2 as [T2 _].
    apply orb_false_elim in T2. destruct T2 as [T2 _].
    rewrite T1, T2. intros E. injection E as <-. eexists. split; reflexivity.
  - intros E. injection E as <-. eexists. split; reflexivity.
Qed.

Lemma later_handler_is_stricter_witness :
  exists p,
    params (with_params ex_rsi
              {| target_price := None; period := Some (num 14);
                 threshold := Some (num 30); std_dev := None; direction := None |})
    = Some p
    /\ AlarmForm.onSubmit ex_rsi
       = CallsCreateAlarm
           (with_params ex_rsi
              {| target_price := target_price p; period := period p;
                 threshold := threshold p; std_dev := std_dev p;
                 direction := None |}).
Proof.
  apply (later_handler_is_stricter ex_rsi). reflexivity.
Defined.

Definition server_down : AlarmData -> ApiOutcome :=
  fun _ => ApiRejectsAPIError "Service unavailable".

Definition server_up : AlarmData -> ApiOutcome := fun _ => ApiResolves.

Example later_form_hides_the_reason :
  submit server_up (ex_bollinger 101 2)
  = mkSubmitted [] (toast_error "Error: Failed to create alarm") false false.
Proof. reflexivity. Qed.

Example earlier_form_tells_the_reason :
  submit_legacy (fun _ => None) server_up
    (ex_form rsi {| target_price := None; period := None; threshold := Some (num 30);
                    std_dev := None; direction := None |})
  = mkSubmittedLegacy [] status_error (JStr "Invalid RSI parameters") false false.
Proof. reflexivity. Qed.

(** X16. One submission of the later form. It calls [createAlarm] once,
    with the payload, or not at all, the latter exactly when the
    validation throws. Whatever the validation threw, the toast is the
    same 'Error: Failed to create alarm': the validation messages are
    never shown, and two rejected forms cannot be told apart. The message
    of an [APIError] is shown after 'Error: '. The form is reset exactly
    when [createAlarm] resolved, which is exactly when the success toast
    is shown. *)
Theorem later_submit_outcomes (createAlarm : AlarmData -> ApiOutcome)
    (formData : AlarmData) :
  let r := submit createAlarm formData in
  (sent r = [] <-> exists m, AlarmForm001.onSubmit formData = Throws m)
  /\ (forall payload, AlarmForm001.onSubmit formData = CallsCreateAlarm payload ->
        sent r = [payload])
  /\ (sent r = [] -> shown r = toast_error "Error: Failed to create alarm")
  /\ (forall createAlarm' formData' m',
        sent r = [] -> AlarmForm001.onSubmit formData' = Throws m' ->
        submit createAlarm' formData' = r)
  /\ (forall payload m,
        AlarmForm001.onSubmit formData = CallsCreateAlarm payload ->
        createAlarm payload = ApiRejectsAPIError m ->
        shown r = toast_error ("Error: " ++ m))
  /\ (form_reset r = true
      <-> exists payload, AlarmForm001.onSubmit formData = CallsCreateAlarm payload
                          /\ createAlarm payload = ApiResolves)
  /\ (form_reset r = true <-> shown r = toast_success "Alarm created successfully!")
  /\ isSubmitting r = false.
Proof.
  cbv zeta. unfold submit.
  destruct (AlarmForm001.onSubmit formData) as [m|payload] eqn:O.
  - simpl.
    split; [split; [eauto | reflexivity]|].
    split; [discriminate|].
    split; [reflexivity|].
    split; [intros createAlarm' formData' m' _ H; unfold submit; now rewrite H|].
    split; [discriminate|].
    split; [split; [discriminate | intros (? & E & _); discriminate]|].
    split; [split; discriminate | reflexivity].
  - destruct (createAlarm payload) as [|m|err] eqn:C; simpl;
      (split; [split; [discriminate | intros (? & ?); discriminate]|]);
      (split; [intros ? E; injection E as <-; reflexivity|]);
      (split; [discriminate|]); (split; [discriminate|]);
      (split; [intros ? ? E A; injection E as <-; congruence|]);
      (split; [|split; [|reflexivity]]).
    + split; [eauto | reflexivity].
    + split; reflexivity.
    + split; [discriminate | intros (? & E & A); injection E as <-; congruence].
    + split; discriminate.
    + split; [discriminate | intros (? & E & A); injection E as <-; congruence].
    + split; discriminate.
Qed.

(** X17. One submission of the earlier form. Nothing is sent exactly when
    the validation throws, and then the message thrown is the error
    message shown, with status 'error'. The status is 'success' exactly
    when [createAlarm] resolved on the payload, and exactly then the form
    is reset; the error message is then empty. For an [APIError] whose
    message is no JSON text the message itself is shown; for one whose
    message parses to an object with a truthy [detail], the detail. *)
Theorem earlier_submit_outcomes (JSON_parse : string -> option JSValue)
    (createAlarm : AlarmData -> ApiOutcome) (formData : AlarmData) :
  let r := submit_legacy JSON_parse createAlarm formData in
  (sent_legacy r = [] <-> exists m, AlarmForm.onSubmit formData = Throws m)
  /\ (forall m, AlarmForm.onSubmit formData = Throws m ->
        errorMessage r = JStr m /\ submitStatus r = status_error)
  /\ (submitStatus r = status_success
      <-> exists payload, AlarmForm.onSubmit formData = CallsCreateAlarm payload
                          /\ createAlarm payload = ApiResolves)
  /\ (submitStatus r = status_success <-> form_reset_legacy r = true)
  /\ (submitStatus r = status_success -> errorMessage r = JStr "")
  /\ (forall payload m,
        AlarmForm.onSubmit formData = CallsCreateAlarm payload ->
        createAlarm payload = ApiRejectsAPIError m ->
        JSON_parse m = None ->
        errorMessage r = JStr m /\ submitStatus r = status_error)
  /\ (forall payload m props d,
        AlarmForm.onSubmit formData = CallsCreateAlarm payload ->
        createAlarm payload = ApiRejectsAPIError m ->
        JSON_parse m = Some (JObj props) ->
        lookup_prop "detail" props = PropValue d -> truthy d = true ->
        errorMessage r = d /\ submitStatus r = status_error).
Proof.
  cbv zeta. unfold submit_legacy.
  destruct (AlarmForm.onSubmit formData) as [m|payload] eqn:O.
  - simpl. repeat split; try discriminate; eauto; try congruence.
    + intros (payload & E & _). discriminate.
  - destruct (createAlarm payload) as [|m|err] eqn:C; simpl;
      (split; [split; [discriminate | intros (? & ?); discriminate]|]);
      (split; [discriminate|]).
    + split; [split; eauto|]. split; [split; reflexivity|]. split; [reflexivity|].
      split; intros; repeat match goal with
                            | E : CallsCreateAlarm _ = CallsCreateAlarm _ |- _ =>
                                injection E as <-
                            end; congruence.
    + split; [split; [discriminate|intros (? & E & A); injection E as <-; congruence]|].
      split; [split; discriminate|]. split; [discriminate|]. split.
      * intros ? m' E A P. injection E as <-. rewrite C in A. injection A as <-.
        now rewrite P.
      * intros ? m' props d E A P L T. injection E as <-. rewrite C in A.
        injection A as <-. rewrite P. cbn [get_detail]. rewrite L. now rewrite T.
    + split; [split; [discriminate|intros (? & E & A); injection E as <-; congruence]|].
      split; [split; discriminate|]. split; [discriminate|].
      split; intros; repeat match goal with
                            | E : CallsCreateAlarm _ = CallsCreateAlarm _ |- _ =>
                                injection E as <-
                            end; congruence.
Qed.

End SubmitFacts.

(* ===================================================================== *)
(** * Properties of the email pattern                                    *)
(* ===================================================================== *)

Module RegexFacts.

Import HookForm Regex.
Local Open Scope string_scope.

Lemma append_nil_l (t : string) : "" ++ t = t.
Proof. reflexivity. Qed.

Lemma append_cons_l (c : ascii) (s t : string) : String c s ++ t = String c (s ++ t).
Proof. reflexivity. Qed.

Lemma append_empty_r (s : string) : s ++ "" = s.
Proof.
  induction s as [|c s IH]; [reflexivity|]. now rewrite append_cons_l, IH.
Qed.

Lemma append_assoc (a b c : string) : (a ++ b) ++ c = a ++ (b ++ c).
Proof.
  induction a as [|x a IH]; [reflexivity|]. now rewrite !append_cons_l, IH.
Qed.

Lemma append_cons_inv (s1 s2 s : string) (c : ascii) :
  s1 ++ s2 = String c s ->
  (s1 = "" /\ s2 = String c s) \/ (exists s1', s1 = String c s1' /\ s = s1' ++ s2).
Proof.
  destruct s1 as [|x s1]; intros E.
  - left. rewrite append_nil_l in E. auto.
  - right. rewrite append_cons_l in E. injection E as -> <-. eauto.
Qed.

Lemma append_empty_inv (s1 s2 : string) : s1 ++ s2 = "" -> s1 = "" /\ s2 = "".
Proof.
  destruct s1; intros E; [rewrite append_nil_l in E; auto|].
  rewrite append_cons_l in E. discriminate.
Qed.

Section Language.

Variable ignoreCase : bool.

(** The texts an expression matches from start to end. *)
Inductive Lang : re -> string -> Prop :=
| LEps : Lang Eps ""
| LChars cls c : char_matches ignoreCase cls c = true -> Lang (Chars cls) (String c "")
| LSeq r1 r2 s1 s2 : Lang r1 s1 -> Lang r2 s2 -> Lang (Seq r1 r2) (s1 ++ s2)
| LAltL r1 r2 s : Lang r1 s -> Lang (Alt r1 r2) s
| LAltR r1 r2 s : Lang r2 s -> Lang (Alt r1 r2) s
| LStarNil r : Lang (Star r) ""
| LStarApp r s1 s2 : Lang r s1 -> Lang (Star r) s2 -> Lang (Star r) (s1 ++ s2).

Lemma nullable_Lang (r : re) : nullable r = true <-> Lang r "".
Proof.
  induction r as [| |cls|r1 IH1 r2 IH2|r1 IH1 r2 IH2|r IH]; simpl.
  - split; [discriminate|]. intros H. inversion H.
  - split; [constructor|reflexivity].
  - split; [discriminate|]. intros H. inversion H.
  - rewrite andb_true_iff, IH1, IH2. split.
    + intros [H1 H2]. rewrite <- (append_nil_l ""). now constructor.
    + intros H. inversion H; subst.
      match goal with
      | E : _ ++ _ = "" |- _ => apply append_empty_inv in E; destruct E as [-> ->]
      end. auto.
  - rewrite orb_true_iff, IH1, IH2. split.
    + intros [H|H]; [now apply LAltL|now apply LAltR].
    + intros H. inversion H; subst; auto.
  - split; [constructor|reflexivity].
Qed.

Lemma Lang_star_cons (r : re) (c : ascii) (s : string) :
  Lang (Star r) (String c s) ->
  exists s1 s2, s = s1 ++ s2 /\ Lang r (String c s1) /\ Lang (Star r) s2.
Proof.
  intros H. remember (Star r) as r' eqn:Er. remember (String c s) as x eqn:Ex.
  revert s Ex. induction H as [| | | | | |r0 s1 s2 H1 _ H2 IH2]; intros t Ex;
    try discriminate.
  injection Er as ->.
  apply append_cons_inv in Ex. destruct Ex as [[-> ->]|(s1' & -> & ->)].
  - apply IH2; reflexivity.
  - exists s1', s2. auto.
Qed.

Lemma Lang_Seq_inv (r1 r2 : re) (s : string) :
  Lang (Seq r1 r2) s -> exists s1 s2, s = s1 ++ s2 /\ Lang r1 s1 /\ Lang r2 s2.
Proof. intros H. inversion H; subst. eauto. Qed.

Lemma deriv_Lang (r : re) (c : ascii) (s : string) :
  Lang (deriv ignoreCase c r) s <-> Lang r (String c s).
Proof.
  revert s. induction r as [| |cls|r1 IH1 r2 IH2|r1 IH1 r2 IH2|r IH]; intros s; simpl.
  - split; intros H; inversion H.
  - split; intros H; inversion H.
  - destruct (char_matches ignoreCase cls c) eqn:M; split; intros H; inversion H; subst.
    + now constructor.
    + constructor.
    + congruence.
  - assert (Fwd : forall x, Lang (Seq (deriv ignoreCase c r1) r2) x ->
                            Lang (Seq r1 r2) (String c x)).
    { intros x H. apply Lang_Seq_inv in H. destruct H as (s1 & s2 & -> & H1 & H2).
      apply IH1 in H1. rewrite <- append_cons_l. now constructor. }
    assert (Bwd : Lang (Seq r1 r2) (String c s) ->
                  Lang (Seq (deriv ignoreCase c r1) r2) s
                  \/ (Lang r1 "" /\ Lang (deriv ignoreCase c r2) s)).
    { intros H. apply Lang_Seq_inv in H. destruct H as (s1 & s2 & E & H1 & H2).
      symmetry in E. apply append_cons_inv in E.
      destruct E as [[-> ->]|(s1' & -> & ->)].
      - right. split; [exact H1|now apply IH2].
      - left. constructor; [now apply IH1|exact H2]. }
    destruct (nullable r1) eqn:N.
    + split.
      * intros H. inversion H; subst; [now apply Fwd|].
        rewrite <- (append_nil_l (String c s)). constructor.
        -- now apply nullable_Lang.
        -- now apply IH2.
      * intros H. destruct (Bwd H) as [H'|[_ H']]; [now apply LAltL|now apply LAltR].
    + split; [apply Fwd|].
      intros H. destruct (Bwd H) as [H'|[H' _]]; [exact H'|].
      apply nullable_Lang in H'. congruence.
  - split; intros H; inversion H; subst.
    + apply LAltL. now apply IH1.
    + apply LAltR. now apply IH2.
    + apply LAltL. now apply IH1.
    + apply LAltR. now apply IH2.
  - split.
    + intros H. apply Lang_Seq_inv in H. destruct H as (s1 & s2 & -> & H1 & H2).
      apply IH in H1. rewrite <- append_cons_l. now constructor.
    + intros H. apply Lang_star_cons in H. destruct H as (s1 & s2 & -> & H1 & H2).
      constructor; [now apply IH|exact H2].
Qed.

(** The test by derivatives decides the language. *)
Lemma test_Lang (r : re) (s : string) : test ignoreCase r s = true <-> Lang r s.
Proof.
  revert r. induction s as [|c s IH]; intros r; simpl.
  - apply nullable_Lang.
  - rewrite IH. apply deriv_Lang.
Qed.

Lemma Lang_Chars (cls : list ClassItem) (s : string) :
  Lang (Chars cls) s
  <-> exists c, s = String c "" /\ char_matches ignoreCase cls c = true.
Proof.
  split.
  - intros H. inversion H; subst. eauto.
  - intros (c & -> & M). now constructor.
Qed.

Lemma Lang_Seq (r1 r2 : re) (s : string) :
  Lang (Seq r1 r2) s <-> exists s1 s2, s = s1 ++ s2 /\ Lang r1 s1 /\ Lang r2 s2.
Proof.
  split; [apply Lang_Seq_inv|].
  intros (s1 & s2 & -> & H1 & H2). now constructor.
Qed.

Lemma Lang_Star_Chars (cls : list ClassItem) (s : string) :
  Lang (Star (Chars cls)) s <-> every (char_matches ignoreCase cls) s = true.
Proof.
  split.
  - intros H. remember (Star (Chars cls)) as r eqn:Er.
    induction H as [| | | | | |r0 s1 s2 H1 _ H2 IH2]; try discriminate.
    + reflexivity.
    + injection Er as ->. apply Lang_Chars in H1. destruct H1 as (c & -> & M).
      rewrite append_cons_l, append_nil_l. simpl. rewrite M. simpl. now apply IH2.
  - induction s as [|c s IH]; simpl; intros E.
    + constructor.
    + apply andb_true_iff in E. destruct E as [M E].
      rewrite <- (append_nil_l s), <- append_cons_l.
      constructor; [now constructor|now apply IH].
Qed.

Lemma Lang_Plus_Chars (cls : list ClassItem) (s : string) :
  Lang (Plus (Chars cls)) s
  <-> s <> "" /\ every (char_matches ignoreCase cls) s = true.
Proof.
  unfold Plus. rewrite Lang_Seq. split.
  - intros (s1 & s2 & -> & H1 & H2). apply Lang_Chars in H1.
    destruct H1 as (c & -> & M). apply Lang_Star_Chars in H2.
    rewrite append_cons_l, append_nil_l. simpl. split; [discriminate|]. now rewrite M, H2.
  - intros [N E]. destruct s as [|c s]; [now elim N|].
    simpl in E. apply andb_true_iff in E. destruct E as [M E].
    exists (String c ""), s. split; [reflexivity|]. split.
    + now constructor.
    + now apply Lang_Star_Chars.
Qed.

Lemma Lang_AtLeast2_Chars (cls : list ClassItem) (s : string) :
  Lang (AtLeast2 (Chars cls)) s
  <-> (2 <= String.length s)%nat /\ every (char_matches ignoreCase cls) s = true.
Proof.
  unfold AtLeast2. rewrite Lang_Seq. split.
  - intros (s1 & s2 & -> & H1 & H2). apply Lang_Chars in H1.
    destruct H1 as (c & -> & M). apply Lang_Plus_Chars in H2.
    destruct H2 as [N E]. rewrite append_cons_l, append_nil_l. simpl.
    rewrite M, E. split; [|reflexivity].
    destruct s2; [now elim N|simpl; lia].
  - intros [L E]. destruct s as [|c s]; [simpl in L; lia|].
    simpl in E. apply andb_true_iff in E. destruct E as [M E].
    exists (String c ""), s. split; [reflexivity|]. split.
    + now constructor.
    + apply Lang_Plus_Chars. split; [|exact E].
      destruct s; [simpl in L; lia|discriminate].
Qed.

End Language.

(** *** The classes of the email pattern under the flag [i] *)

Lemma local_class (c : ascii) :
  char_matches true email_local c
  = existsb (Ascii.eqb c) (list_ascii_of_string LOCAL_ALPHABET).
Proof. destruct c as [[] [] [] [] [] [] [] []]; vm_compute; reflexivity. Qed.

Lemma domain_class (c : ascii) :
  char_matches true email_domain c
  = existsb (Ascii.eqb c) (list_ascii_of_string DOMAIN_ALPHABET).
Proof. destruct c as [[] [] [] [] [] [] [] []]; vm_compute; reflexivity. Qed.

Lemma letter_class (c : ascii) :
  char_matches true [Range "A" "Z"]%char c
  = existsb (Ascii.eqb c) (list_ascii_of_string LETTERS).
Proof. destruct c as [[] [] [] [] [] [] [] []]; vm_compute; reflexivity. Qed.

Lemma at_class (c : ascii) :
  char_matches true [Single "@"%char] c = Ascii.eqb c "@".
Proof. destruct c as [[] [] [] [] [] [] [] []]; vm_compute; reflexivity. Qed.

Lemma dot_class (c : ascii) :
  char_matches true [Single "."%char] c = Ascii.eqb c ".".
Proof. destruct c as [[] [] [] [] [] [] [] []]; vm_compute; reflexivity. Qed.

Lemma every_all_of (p : ascii -> bool) (alphabet s : string) :
  (forall c, p c = existsb (Ascii.eqb c) (list_ascii_of_string alphabet)) ->
  every p s = true <-> all_of alphabet s.
Proof.
  intros P. unfold all_of. induction s as [|c s IH]; simpl.
  - split; [constructor|reflexivity].
  - rewrite andb_true_iff, IH, P, existsb_exists. split.
    + intros [(x & Hx & E) F]. apply Ascii.eqb_eq in E. subst x. now constructor.
    + intros F. inversion F as [|? ? Hc F']; subst. split; [|exact F'].
      exists c. split; [exact Hc|apply Ascii.eqb_refl].
Qed.

Example email_plain : test true email_re "user.name+tag@mail.example.com" = true.
Proof. vm_compute. reflexivity. Qed.

Example email_upper_case : test true email_re "USER@EXAMPLE.ORG" = true.
Proof. vm_compute. reflexivity. Qed.

Example email_no_top_level : test true email_re "user@localhost" = false.
Proof. vm_compute. reflexivity. Qed.

Example email_one_letter_top_level : test true email_re "user@example.c" = false.
Proof. vm_compute. reflexivity. Qed.

Example email_two_dots : test true email_re "a@b..co" = true.
Proof. vm_compute. reflexivity. Qed.

Lemma Lang_email (s : string) :
  Lang true email_re s
  <-> exists local domain tld,
        s = local ++ "@" ++ domain ++ "." ++ tld
        /\ local <> "" /\ all_of LOCAL_ALPHABET local
        /\ domain <> "" /\ all_of DOMAIN_ALPHABET domain
        /\ (2 <= String.length tld)%nat /\ all_of LETTERS tld.
Proof.
  unfold email_re. split.
  - intros H.
    apply Lang_Seq in H. destruct H as (l & s2 & -> & Hl & H).
    apply Lang_Seq in H. destruct H as (a & s3 & -> & Ha & H).
    apply Lang_Seq in H. destruct H as (d & s4 & -> & Hd & H).
    apply Lang_Seq in H. destruct H as (o & t & -> & Ho & Ht).
    apply Lang_Plus_Chars in Hl. destruct Hl as [Nl El].
    apply Lang_Plus_Chars in Hd. destruct Hd as [Nd Ed].
    apply Lang_AtLeast2_Chars in Ht. destruct Ht as [Lt Et].
    apply Lang_Chars in Ha. destruct Ha as (ca & -> & Ma).
    apply Lang_Chars in Ho. destruct Ho as (co & -> & Mo).
    rewrite at_class in Ma. apply Ascii.eqb_eq in Ma. subst ca.
    rewrite dot_class in Mo. apply Ascii.eqb_eq in Mo. subst co.
    exists l, d, t. split; [reflexivity|].
    split; [exact Nl|]. split; [now apply (every_all_of _ _ _ local_class)|].
    split; [exact Nd|]. split; [now apply (every_all_of _ _ _ domain_class)|].
    split; [exact Lt|]. now apply (every_all_of _ _ _ letter_class).
  - intros (l & d & t & -> & Nl & Al & Nd & Ad & Lt & At).
    apply Lang_Seq. exists l, ("@" ++ d ++ "." ++ t). split; [reflexivity|]. split.
    { apply Lang_Plus_Chars. split; [exact Nl|].
      now apply (every_all_of _ _ _ local_class). }
    apply Lang_Seq. exists "@", (d ++ "." ++ t). split; [reflexivity|]. split.
    { apply Lang_Chars. exists "@"%char. split; [reflexivity|].
      rewrite at_class. reflexivity. }
    apply Lang_Seq. exists d, ("." ++ t). split; [reflexivity|]. split.
    { apply Lang_Plus_Chars. split; [exact Nd|].
      now apply (every_all_of _ _ _ domain_class). }
    apply Lang_Seq. exists ".", t. split; [reflexivity|]. split.
    { apply Lang_Chars. exists "."%char. split; [reflexivity|].
      rewrite dot_class. reflexivity. }
    apply Lang_AtLeast2_Chars. split; [exact Lt|].
    now apply (every_all_of _ _ _ letter_class).
Qed.

(** X18. Both forms accept an email address if and only if it reads
    local@domain.tld, where local is one or more letters, digits or
    characters of ._%+-, domain is one or more letters, digits, dots or
    hyphens, and tld is two or more letters, in either case. An empty
    address gets the message of [required], any other refused address
    that of the pattern. *)
Theorem email_accepted_iff (formData : Api.AlarmData) :
  (errors_email formData = None
   <-> exists local domain tld,
         Api.email formData = local ++ "@" ++ domain ++ "." ++ tld
         /\ local <> "" /\ all_of LOCAL_ALPHABET local
         /\ domain <> "" /\ all_of DOMAIN_ALPHABET domain
         /\ (2 <= String.length tld)%nat /\ all_of LETTERS tld)
  /\ (errors_email formData = None
      \/ errors_email formData = Some "Email is required"
         /\ Api.email formData = ""
      \/ errors_email formData = Some "Invalid email address"
         /\ Api.email formData <> "").
Proof.
  unfold errors_email, validateText, email_rules.
  cbn [required_message pattern_rule].
  destruct (Api.email formData) as [|a rest] eqn:E.
  - split.
    + split; [discriminate|]. intros (l & d & t & D & Nl & _).
      symmetry in D. apply append_empty_inv in D. destruct D as [-> _]. now elim Nl.
    + right. left. split; reflexivity.
  - pose proof (test_Lang true email_re (String a rest)) as T.
    rewrite Lang_email in T.
    destruct (test true email_re (String a rest)) eqn:M.
    + split; [|now left]. split; [intros _; now apply T|reflexivity].
    + split.
      * split; [discriminate|]. intros D. apply T in D. discriminate.
      * right. right. split; [reflexivity|discriminate].
Qed.

End RegexFacts.
